(** * ClawX auto-updater (electron/main/updater.ts)

    A shallow embedding of the update orchestrator: the channel resolver
    [detectChannel], the status tracker ([updateStatus]), the check
    coordinator ([checkForUpdates]) and the auto-install machinery
    ([startAutoInstallCountdown], [waitForSquirrelThenAutoInstall],
    [cancelAutoInstall], [quitAndInstall]) running on a model of the Node
    event loop (pending timers, listeners of the native updater). *)

From Stdlib Require Import ZArith Bool Ascii String List Lia.
From stdpp Require Import base gmap strings list.
Import ListNotations.

Local Open Scope Z_scope.

(** ** ChannelResolver: [detectChannel] *)

Module ChannelResolver.

(** The character class [[a-zA-Z]]. *)
Definition isAlpha (c : ascii) : bool :=
  let n := nat_of_ascii c in
  ((65 <=? n)%nat && (n <=? 90)%nat) || ((97 <=? n)%nat && (n <=? 122)%nat).

Definition isHyphen (c : ascii) : bool := Ascii.eqb c "-"%char.

(** [[a-zA-Z]+] is greedy: the capture group is the longest run of letters
    that starts right after the hyphen. *)
Fixpoint takeAlpha (s : string) : string :=
  match s with
  | String c r => if isAlpha c then String c (takeAlpha r) else EmptyString
  | EmptyString => EmptyString
  end.

(** [version.match(/-([a-zA-Z]+)/)]: the leftmost position at which a hyphen
    is followed by at least one letter; the result is capture group 1, or
    [None] when the regular expression does not match ([match] is [null]). *)
Fixpoint matchChannel (s : string) : option string :=
  match s with
  | EmptyString => None
  | String c r =>
      if isHyphen c then
        match takeAlpha r with
        | EmptyString => matchChannel r
        | tag => Some tag
        end
      else matchChannel r
  end.

(** [return match ? match[1] : 'latest'] *)
Definition detectChannel (version : string) : string :=
  match matchChannel version with
  | Some tag => tag
  | None => "latest"
  end.

(** Words used to state the properties of [detectChannel]. *)

Fixpoint allAlpha (s : string) : bool :=
  match s with
  | String c r => isAlpha c && allAlpha r
  | EmptyString => true
  end.

Definition startsAlpha (s : string) : bool :=
  match s with
  | String c _ => isAlpha c
  | EmptyString => false
  end.

(** [hasLabel s]: somewhere in [s] a hyphen is immediately followed by a
    letter. *)
Fixpoint hasLabel (s : string) : bool :=
  match s with
  | String c r => (isHyphen c && startsAlpha r) || hasLabel r
  | EmptyString => false
  end.

Fixpoint hyphenFree (s : string) : bool :=
  match s with
  | String c r => negb (isHyphen c) && hyphenFree r
  | EmptyString => true
  end.

(** The pattern of the specification, in its words: the version reads
    [<core>-<tag>.<n>], with a non-empty alphabetic tag.  Nothing is asked
    of [core] and [n], which makes the pattern as wide as it can be read. *)
Definition matches_core_tag_n (v tag : string) : Prop :=
  exists core n : string,
    v = core +:+ "-" +:+ tag +:+ "." +:+ n /\ tag <> "" /\ allAlpha tag = true.

Fixpoint hasDot (s : string) : bool :=
  match s with
  | String c r => Ascii.eqb c "."%char || hasDot r
  | EmptyString => false
  end.

(** Somewhere in [s] a hyphen is followed, at any distance, by a dot; every
    string of the form [<core>-<tag>.<n>] is such a string. *)
Fixpoint dotAfterHyphen (s : string) : bool :=
  match s with
  | String c r => (isHyphen c && hasDot r) || dotAfterHyphen r
  | EmptyString => false
  end.

End ChannelResolver.

(** ** The updater: data model *)

Module UpdateStatus.

(** ['idle' | 'checking' | 'available' | 'not-available' | 'downloading' |
    'downloaded' | 'error'] *)
Inductive Tag : Type :=
| Idle | Checking | Available | NotAvailable | Downloading | Downloaded | Error.

(** [UpdateInfo] and [ProgressInfo] belong to electron-updater; the updater
    only stores and forwards them, so one field of each is kept. *)
Record UpdateInfo : Type := { version : string }.
Record ProgressInfo : Type := { percent : Z }.

(** [interface UpdateStatus]: an optional field is [None] when the key is
    absent from the object. *)
Record t : Type := Build {
  status : Tag;
  info : option UpdateInfo;
  progress : option ProgressInfo;
  error : option string
}.

(** [Partial<UpdateStatus>]: every key may be absent. *)
Record Partial : Type := BuildPartial {
  status' : option Tag;
  info' : option UpdateInfo;
  progress' : option ProgressInfo;
  error' : option string
}.

Definition over {A : Type} (new old : option A) : option A :=
  match new with
  | Some a => Some a
  | None => old
  end.

(** [{ ...old, ...new }]: a key of [new] overrides the key of [old], every
    other key of [old] is kept. *)
Definition spread (old : t) (new : Partial) : t :=
  {| status := match status' new with Some s => s | None => status old end;
     info := over (info' new) (info old);
     progress := over (progress' new) (progress old);
     error := over (error' new) (error old) |}.

Definition Tag_eqb (a b : Tag) : bool :=
  match a, b with
  | Idle, Idle | Checking, Checking | Available, Available
  | NotAvailable, NotAvailable | Downloading, Downloading
  | Downloaded, Downloaded | Error, Error => true
  | _, _ => false
  end.

End UpdateStatus.

Module Updater.

Import UpdateStatus(Tag(..), UpdateInfo, ProgressInfo).

(** The payload of ['update:auto-install-countdown']:
    [{ seconds }] or [{ seconds: -1, cancelled: true }]. *)
Record Countdown : Type := { seconds : Z; cancelled : option bool }.

Inductive Payload : Type :=
| StatusPayload (s : UpdateStatus.t)
| CountdownPayload (c : Countdown).

(** The closures handed to [setInterval] and [setTimeout]. *)
Inductive Callback : Type :=
| AutoInstallTick                  (* the interval of startAutoInstallCountdown *)
| SquirrelFallback (onReady : nat) (* the timeout of waitForSquirrelThenAutoInstall,
                                      closed over its [onReady] listener *)
| QuitSafety.                      (* the safety timeout of quitAndInstall *)

(** A timer pending in the event loop. [period] is [Some] for an interval. *)
Record Timer : Type := { due : Z; period : option Z; callback : Callback }.

(** Listeners of the native updater's ['update-downloaded']. *)
Inductive Listener : Type :=
| MarkSquirrelReady      (* registered by the constructor with [on] *)
| OnReady (id : nat).    (* registered by waitForSquirrelThenAutoInstall with [once] *)

Record BrowserWindow : Type := { isDestroyed : bool }.

(** What the updater does to the outside, in order. *)
Inductive Action : Type :=
| Send (channel : string) (data : Payload)  (* mainWindow.webContents.send *)
| Emit (event : string)                     (* this.emit *)
| SetInterval (handle : nat) (ms : Z)
| ClearInterval (handle : nat)
| SetTimeout (handle : nat) (ms : Z)
| ClearTimeout (handle : nat)
| Once (listener : nat)                     (* nativeSquirrelUpdater.once *)
| RemoveListener (listener : nat)           (* nativeSquirrelUpdater.removeListener *)
| QuitAndInstall                            (* autoUpdater.quitAndInstall() *)
| AppQuit.                                  (* app.quit() *)

(** The fields of [AppUpdater], followed by the part of the runtime the class
    talks to: [process.platform], [autoUpdater.autoDownload], the timers
    pending in the event loop, the listeners of the native updater, the
    supply of fresh handles and the clock (milliseconds). *)
Record World : Type := Build_World {
  mainWindow : option BrowserWindow;
  status : UpdateStatus.t;
  autoInstallTimer : option nat;
  autoInstallCountdown : Z;
  nativeSquirrelReady : bool;
  squirrelFallbackTimer : option nat;
  autoInstallCancelled : bool;
  platform : string;
  autoDownload : bool;
  timers : gmap nat Timer;
  listeners : list Listener;
  nextHandle : nat;
  now : Z
}.

Definition set_mainWindow (x : option BrowserWindow) (w : World) : World :=
  Build_World x (status w) (autoInstallTimer w) (autoInstallCountdown w)
    (nativeSquirrelReady w) (squirrelFallbackTimer w) (autoInstallCancelled w)
    (platform w) (autoDownload w) (timers w) (listeners w) (nextHandle w) (now w).

Definition set_status (x : UpdateStatus.t) (w : World) : World :=
  Build_World (mainWindow w) x (autoInstallTimer w) (autoInstallCountdown w)
    (nativeSquirrelReady w) (squirrelFallbackTimer w) (autoInstallCancelled w)
    (platform w) (autoDownload w) (timers w) (listeners w) (nextHandle w) (now w).

Definition set_autoInstallTimer (x : option nat) (w : World) : World :=
  Build_World (mainWindow w) (status w) x (autoInstallCountdown w)
    (nativeSquirrelReady w) (squirrelFallbackTimer w) (autoInstallCancelled w)
    (platform w) (autoDownload w) (timers w) (listeners w) (nextHandle w) (now w).

Definition set_autoInstallCountdown (x : Z) (w : World) : World :=
  Build_World (mainWindow w) (status w) (autoInstallTimer w) x
    (nativeSquirrelReady w) (squirrelFallbackTimer w) (autoInstallCancelled w)
    (platform w) (autoDownload w) (timers w) (listeners w) (nextHandle w) (now w).

Definition set_nativeSquirrelReady (x : bool) (w : World) : World :=
  Build_World (mainWindow w) (status w) (autoInstallTimer w) (autoInstallCountdown w)
    x (squirrelFallbackTimer w) (autoInstallCancelled w)
    (platform w) (autoDownload w) (timers w) (listeners w) (nextHandle w) (now w).

Definition set_squirrelFallbackTimer (x : option nat) (w : World) : World :=
  Build_World (mainWindow w) (status w) (autoInstallTimer w) (autoInstallCountdown w)
    (nativeSquirrelReady w) x (autoInstallCancelled w)
    (platform w) (autoDownload w) (timers w) (listeners w) (nextHandle w) (now w).

Definition set_autoInstallCancelled (x : bool) (w : World) : World :=
  Build_World (mainWindow w) (status w) (autoInstallTimer w) (autoInstallCountdown w)
    (nativeSquirrelReady w) (squirrelFallbackTimer w) x
    (platform w) (autoDownload w) (timers w) (listeners w) (nextHandle w) (now w).

Definition set_autoDownload (x : bool) (w : World) : World :=
  Build_World (mainWindow w) (status w) (autoInstallTimer w) (autoInstallCountdown w)
    (nativeSquirrelReady w) (squirrelFallbackTimer w) (autoInstallCancelled w)
    (platform w) x (timers w) (listeners w) (nextHandle w) (now w).

Definition set_timers (x : gmap nat Timer) (w : World) : World :=
  Build_World (mainWindow w) (status w) (autoInstallTimer w) (autoInstallCountdown w)
    (nativeSquirrelReady w) (squirrelFallbackTimer w) (autoInstallCancelled w)
    (platform w) (autoDownload w) x (listeners w) (nextHandle w) (now w).

Definition set_listeners (x : list Listener) (w : World) : World :=
  Build_World (mainWindow w) (status w) (autoInstallTimer w) (autoInstallCountdown w)
    (nativeSquirrelReady w) (squirrelFallbackTimer w) (autoInstallCancelled w)
    (platform w) (autoDownload w) (timers w) x (nextHandle w) (now w).

Definition set_nextHandle (x : nat) (w : World) : World :=
  Build_World (mainWindow w) (status w) (autoInstallTimer w) (autoInstallCountdown w)
    (nativeSquirrelReady w) (squirrelFallbackTimer w) (autoInstallCancelled w)
    (platform w) (autoDownload w) (timers w) (listeners w) x (now w).

Definition set_now (x : Z) (w : World) : World :=
  Build_World (mainWindow w) (status w) (autoInstallTimer w) (autoInstallCountdown w)
    (nativeSquirrelReady w) (squirrelFallbackTimer w) (autoInstallCancelled w)
    (platform w) (autoDownload w) (timers w) (listeners w) (nextHandle w) x.

(** [process.platform === 'darwin'] *)
Definition isDarwin (w : World) : bool := String.eqb (platform w) "darwin".

(** *** Methods run in a state-and-output monad

    A method reads and writes the world and appends to the list of actions. *)
Definition M (A : Type) : Type := World -> A * World * list Action.

#[global] Instance M_ret : MRet M := fun A a w => (a, w, []).

#[global] Instance M_bind : MBind M := fun A B f m w =>
  let '(a, w1, o1) := m w in
  let '(b, w2, o2) := f a w1 in
  (b, w2, o1 ++ o2).

Definition get : M World := fun w => (w, w, []).
Definition modify (f : World -> World) : M unit := fun w => (tt, f w, []).
Definition act (a : Action) : M unit := fun w => (tt, w, [a]).
Definition skip : M unit := mret tt.

Definition exec {A : Type} (m : M A) (w : World) : World := snd (fst (m w)).
Definition output {A : Type} (m : M A) (w : World) : list Action := snd (m w).
Definition result {A : Type} (m : M A) (w : World) : A := fst (fst (m w)).

Definition when (b : bool) (m : M unit) : M unit := if b then m else skip.

(** *** The runtime: timers and listeners *)

(** [setTimeout(cb, ms)] and [setInterval(cb, ms)] return a fresh handle. *)
Definition setTimeout (cb : Callback) (ms : Z) : M nat :=
  w ← get;
  let h := nextHandle w in
  modify (set_timers (<[h := {| due := now w + ms; period := None; callback := cb |}]> (timers w)));;
  modify (set_nextHandle (S h));;
  act (SetTimeout h ms);;
  mret h.

Definition setInterval (cb : Callback) (ms : Z) : M nat :=
  w ← get;
  let h := nextHandle w in
  modify (set_timers (<[h := {| due := now w + ms; period := Some ms; callback := cb |}]> (timers w)));;
  modify (set_nextHandle (S h));;
  act (SetInterval h ms);;
  mret h.

(** A cleared timer never fires. *)
Definition clearTimeout (h : nat) : M unit :=
  modify (fun w => set_timers (delete h (timers w)) w);;
  act (ClearTimeout h).

Definition clearInterval (h : nat) : M unit :=
  modify (fun w => set_timers (delete h (timers w)) w);;
  act (ClearInterval h).

Definition isOnReady (id : nat) (l : Listener) : bool :=
  match l with
  | OnReady id' => Nat.eqb id id'
  | MarkSquirrelReady => false
  end.

Definition dropListener (id : nat) (ls : list Listener) : list Listener :=
  List.filter (fun l => negb (isOnReady id l)) ls.

(** [nativeSquirrelUpdater.once('update-downloaded', onReady)]; the listener
    is named by a fresh handle. *)
Definition onceUpdateDownloaded : M nat :=
  w ← get;
  let id := nextHandle w in
  modify (set_listeners (listeners w ++ [OnReady id]));;
  modify (set_nextHandle (S id));;
  act (Once id);;
  mret id.

(** [nativeSquirrelUpdater.removeListener('update-downloaded', onReady)] *)
Definition removeListener (id : nat) : M unit :=
  modify (fun w => set_listeners (dropListener id (listeners w)) w);;
  act (RemoveListener id).

(** *** The methods of [AppUpdater] *)

Definition AUTO_INSTALL_DELAY_SECONDS : Z := 5.
Definition SQUIRREL_STAGING_TIMEOUT_MS : Z := 6 * 60000.
Definition QUIT_SAFETY_TIMEOUT_MS : Z := 6 * 60000.

Definition sendToRenderer (channel : string) (data : Payload) : M unit :=
  w ← get;
  match mainWindow w with
  | Some win => when (negb (isDestroyed win)) (act (Send channel data))
  | None => skip
  end.

Definition updateStatus (newStatus : UpdateStatus.Partial) : M unit :=
  modify (fun w => set_status (UpdateStatus.spread (status w) newStatus) w);;
  w ← get;
  sendToRenderer "update:status-changed" (StatusPayload (status w)).

Definition sendCountdown (c : Countdown) : M unit :=
  sendToRenderer "update:auto-install-countdown" (CountdownPayload c).

Definition clearAutoInstallTimer : M unit :=
  w ← get;
  match autoInstallTimer w with
  | Some h => clearInterval h;; modify (set_autoInstallTimer None)
  | None => skip
  end.

Definition clearSquirrelFallbackTimer : M unit :=
  w ← get;
  match squirrelFallbackTimer w with
  | Some h => clearTimeout h;; modify (set_squirrelFallbackTimer None)
  | None => skip
  end.

Definition quitAndInstall : M unit :=
  act QuitAndInstall;;
  w ← get;
  when (isDarwin w && negb (nativeSquirrelReady w))
       (setTimeout QuitSafety QUIT_SAFETY_TIMEOUT_MS;; skip).

Definition startAutoInstallCountdown : M unit :=
  clearAutoInstallTimer;;
  modify (set_autoInstallCountdown AUTO_INSTALL_DELAY_SECONDS);;
  w ← get;
  sendCountdown {| seconds := autoInstallCountdown w; cancelled := None |};;
  h ← setInterval AutoInstallTick 1000;
  modify (set_autoInstallTimer (Some h)).

(** The body of the interval armed by [startAutoInstallCountdown]. *)
Definition autoInstallTick : M unit :=
  modify (fun w => set_autoInstallCountdown (autoInstallCountdown w - 1) w);;
  w ← get;
  sendCountdown {| seconds := autoInstallCountdown w; cancelled := None |};;
  when (autoInstallCountdown w <=? 0)
       (clearAutoInstallTimer;; quitAndInstall).

(** [onReady], the listener armed by [waitForSquirrelThenAutoInstall]. *)
Definition onReady : M unit :=
  clearSquirrelFallbackTimer;;
  w ← get;
  if autoInstallCancelled w then skip
  else startAutoInstallCountdown.

(** The body of the fallback timeout, closed over its [onReady] listener. *)
Definition squirrelFallback (listener : nat) : M unit :=
  modify (set_squirrelFallbackTimer None);;
  removeListener listener;;
  w ← get;
  if autoInstallCancelled w then skip
  else match autoInstallTimer w with
       | None => startAutoInstallCountdown
       | Some _ => skip
       end.

Definition waitForSquirrelThenAutoInstall : M unit :=
  modify (set_autoInstallCancelled false);;
  listener ← onceUpdateDownloaded;
  h ← setTimeout (SquirrelFallback listener) SQUIRREL_STAGING_TIMEOUT_MS;
  modify (set_squirrelFallbackTimer (Some h)).

Definition cancelAutoInstall : M unit :=
  modify (set_autoInstallCancelled true);;
  clearSquirrelFallbackTimer;;
  clearAutoInstallTimer;;
  sendCountdown {| seconds := -1; cancelled := Some true |}.

Definition setAutoDownload (enable : bool) : M unit :=
  modify (set_autoDownload enable).

Definition setMainWindow (window : BrowserWindow) : M unit :=
  modify (set_mainWindow (Some window)).

(** The body of the safety timeout of [quitAndInstall]. *)
Definition quitSafety : M unit := act AppQuit.

Definition partial (s : Tag) : UpdateStatus.Partial :=
  UpdateStatus.BuildPartial (Some s) None None None.

Definition withInfo (s : Tag) (i : UpdateInfo) : UpdateStatus.Partial :=
  UpdateStatus.BuildPartial (Some s) (Some i) None None.

Definition withProgress (s : Tag) (p : ProgressInfo) : UpdateStatus.Partial :=
  UpdateStatus.BuildPartial (Some s) None (Some p) None.

Definition withError (s : Tag) (e : string) : UpdateStatus.Partial :=
  UpdateStatus.BuildPartial (Some s) None None (Some e).

(** [setupListeners]: the handlers of electron-updater's events. *)
Definition onCheckingForUpdate : M unit :=
  updateStatus (partial Checking);;
  act (Emit "checking-for-update").

Definition onUpdateAvailable (i : UpdateInfo) : M unit :=
  updateStatus (withInfo Available i);;
  act (Emit "update-available").

Definition onUpdateNotAvailable (i : UpdateInfo) : M unit :=
  updateStatus (withInfo NotAvailable i);;
  act (Emit "update-not-available").

Definition onDownloadProgress (p : ProgressInfo) : M unit :=
  updateStatus (withProgress Downloading p);;
  act (Emit "download-progress").

Definition onUpdateDownloaded (event : UpdateInfo) : M unit :=
  updateStatus (withInfo Downloaded event);;
  act (Emit "update-downloaded");;
  w ← get;
  when (autoDownload w)
       (if isDarwin w && negb (nativeSquirrelReady w)
        then waitForSquirrelThenAutoInstall
        else startAutoInstallCountdown).

Definition onError (message : string) : M unit :=
  updateStatus (withError Error message);;
  act (Emit "error").

(** *** [checkForUpdates] *)

(** A value other than [null] and [undefined]: its [message] property,
    absent for a value that is not an [Error], and what [String(error)]
    gives. *)
Record Value : Type := { message : option string; asString : string }.

(** What a promise is rejected with, or a [throw] throws: any value, [null]
    and [undefined] among them. *)
Inductive Thrown : Type :=
| ThrownNull
| ThrownUndefined
| ThrownValue (v : Value).

(** How [await autoUpdater.checkForUpdates()] settles. *)
Inductive CheckOutcome : Type :=
| ResolvesNull                                  (* [null]: dev mode *)
| Resolves (updateInfo : option UpdateInfo)     (* an [UpdateCheckResult] *)
| Rejects (e : Thrown).

(** How an async method settles. *)
Inductive Completion (A : Type) : Type :=
| Returns (a : A)
| Throws (e : Thrown).
Arguments Returns {A} a.
Arguments Throws {A} e.

Definition DEV_MODE_MESSAGE : string :=
  "Update check skipped (dev mode – app is not packaged)".

(** [String(error)] *)
Definition toString (e : Thrown) : string :=
  match e with
  | ThrownNull => "null"
  | ThrownUndefined => "undefined"
  | ThrownValue v => asString v
  end.

(** The [TypeError] of reading the property [message] of [null] or
    [undefined], in the words of V8. *)
Definition cannotReadMessage (what : string) : Thrown :=
  ThrownValue
    {| message := Some ("Cannot read properties of " +:+ what +:+ " (reading 'message')");
       asString := "TypeError: Cannot read properties of " +:+ what +:+ " (reading 'message')" |}.

(** [(error as Error).message]: the cast is erased, and the read throws on
    [null] and [undefined]. *)
Definition readMessage (e : Thrown) : Completion (option string) :=
  match e with
  | ThrownNull => Throws (cannotReadMessage "null")
  | ThrownUndefined => Throws (cannotReadMessage "undefined")
  | ThrownValue v => Returns (message v)
  end.

(** [(error as Error).message || String(error)]: an absent or empty message
    is falsy. *)
Definition errorText (e : Thrown) : Completion string :=
  match readMessage e with
  | Throws t => Throws t
  | Returns (Some m) => Returns (if String.eqb m "" then toString e else m)
  | Returns None => Returns (toString e)
  end.

(** The method does nothing before the [await]; what follows is what runs
    when the awaited call settles, on the world of that moment.  In the
    [catch] block the argument of [updateStatus] is evaluated before the
    call: when that throws, the status is not touched and [throw error] is
    not reached. *)
Definition checkForUpdates (outcome : CheckOutcome) : M (Completion (option UpdateInfo)) :=
  match outcome with
  | ResolvesNull =>
      updateStatus (withError Error DEV_MODE_MESSAGE);;
      mret (Returns None)
  | Resolves updateInfo =>
      w ← get;
      when (UpdateStatus.Tag_eqb (UpdateStatus.status (status w)) Checking
            || UpdateStatus.Tag_eqb (UpdateStatus.status (status w)) Idle)
           (updateStatus (partial NotAvailable));;
      mret (Returns updateInfo)
  | Rejects e =>
      match errorText e with
      | Returns text =>
          updateStatus (withError Error text);;
          mret (Throws e)
      | Throws t => mret (Throws t)
      end
  end.

(** *** The event loop *)

Definition runCallback (cb : Callback) : M unit :=
  match cb with
  | AutoInstallTick => autoInstallTick
  | SquirrelFallback listener => squirrelFallback listener
  | QuitSafety => quitSafety
  end.

(** The event loop runs the pending timer [h]: the clock moves to its due
    time, a timeout leaves the pending set, an interval is re-armed, and the
    closure runs.  A handle that is not pending fires nothing. *)
Definition fireTimer (h : nat) : M unit :=
  w ← get;
  match timers w !! h with
  | None => skip
  | Some t =>
      let start := Z.max (now w) (due t) in
      modify (set_now start);;
      modify (set_timers
                match period t with
                | Some p => <[h := {| due := start + p; period := Some p;
                                      callback := callback t |}]> (timers w)
                | None => delete h (timers w)
                end);;
      runCallback (callback t)
  end.

(** A listener registered with [once] is removed before it runs. *)
Definition callListener (l : Listener) : M unit :=
  match l with
  | MarkSquirrelReady => modify (set_nativeSquirrelReady true)
  | OnReady id =>
      modify (fun w => set_listeners (dropListener id (listeners w)) w);;
      onReady
  end.

Fixpoint callAll (ls : list Listener) : M unit :=
  match ls with
  | [] => skip
  | l :: ls' => callListener l;; callAll ls'
  end.

(** The native updater emits ['update-downloaded']: the listeners registered
    at that moment run in the order of their registration. *)
Definition emitNativeUpdateDownloaded : M unit :=
  w ← get;
  callAll (listeners w).

(** What can happen to the updater. *)
Inductive Event : Type :=
| CheckingForUpdate
| UpdateAvailable (i : UpdateInfo)
| UpdateNotAvailable (i : UpdateInfo)
| DownloadProgress (p : ProgressInfo)
| UpdateDownloaded (event : UpdateInfo)
| UpdaterError (message : string)
| NativeUpdateDownloaded
| TimerFires (h : nat)
| Elapse (ms : Z)
| CheckSettles (outcome : CheckOutcome)
| IpcInstall
| IpcCancelAutoInstall
| IpcSetAutoDownload (enable : bool)
| IpcSetMainWindow (window : BrowserWindow)
| WindowDestroyed.

Definition step (e : Event) : M unit :=
  match e with
  | CheckingForUpdate => onCheckingForUpdate
  | UpdateAvailable i => onUpdateAvailable i
  | UpdateNotAvailable i => onUpdateNotAvailable i
  | DownloadProgress p => onDownloadProgress p
  | UpdateDownloaded event => onUpdateDownloaded event
  | UpdaterError m => onError m
  | NativeUpdateDownloaded => emitNativeUpdateDownloaded
  | TimerFires h => fireTimer h
  | Elapse ms => modify (fun w => set_now (now w + Z.max 0 ms) w)
  | CheckSettles outcome => checkForUpdates outcome;; skip
  | IpcInstall => quitAndInstall
  | IpcCancelAutoInstall => cancelAutoInstall
  | IpcSetAutoDownload enable => setAutoDownload enable
  | IpcSetMainWindow window => setMainWindow window
  | WindowDestroyed =>
      modify (fun w => match mainWindow w with
                       | Some _ => set_mainWindow (Some {| isDestroyed := true |}) w
                       | None => w
                       end)
  end.

Fixpoint run (es : list Event) : M unit :=
  match es with
  | [] => skip
  | e :: es' => step e;; run es'
  end.

(** The world the constructor leaves: [autoDownload] off, status [idle], and
    on macOS the listener that records that Squirrel has staged the update. *)
Definition initial (platform : string) : World :=
  {| mainWindow := None;
     status := UpdateStatus.Build Idle None None None;
     autoInstallTimer := None;
     autoInstallCountdown := 0;
     nativeSquirrelReady := false;
     squirrelFallbackTimer := None;
     autoInstallCancelled := false;
     platform := platform;
     autoDownload := false;
     timers := ∅;
     listeners := if String.eqb platform "darwin" then [MarkSquirrelReady] else [];
     nextHandle := 0;
     now := 0 |}.

Definition Reachable (w : World) : Prop :=
  exists (platform : string) (es : list Event), w = exec (run es) (initial platform).

(** *** Schedules that respect the clock

    [step] accepts any order of events.  A schedule is punctual when a timer
    fires only once every timer due earlier has fired, and time passes only
    up to the next due time. *)
Definition dues (w : World) : list Z := List.map (fun kt => due (snd kt)) (map_to_list (timers w)).

Definition punctual (w : World) (e : Event) : bool :=
  match e with
  | TimerFires h =>
      match timers w !! h with
      | Some t => forallb (fun d => due t <=? d) (dues w)
      | None => false
      end
  | Elapse ms => (0 <=? ms) && forallb (fun d => now w + ms <=? d) (dues w)
  | _ => true
  end.

Fixpoint punctualRun (w : World) (es : list Event) : bool :=
  match es with
  | [] => true
  | e :: es' => punctual w e && punctualRun (exec (step e) w) es'
  end.

(** *** Reading the output *)

Definition isCountdownStart (a : Action) : bool :=
  match a with
  | SetInterval _ _ => true
  | _ => false
  end.

Definition isInstall (a : Action) : bool :=
  match a with
  | QuitAndInstall => true
  | _ => false
  end.

(** The [seconds] of the countdown ticks sent to the renderer (the events
    without [cancelled]). *)
Fixpoint ticks (o : list Action) : list Z :=
  match o with
  | Send _ (CountdownPayload {| seconds := n; cancelled := None |}) :: o' => n :: ticks o'
  | _ :: o' => ticks o'
  | [] => []
  end.

Definition isCancelEvent (a : Action) : bool :=
  match a with
  | Send _ (CountdownPayload {| seconds := n; cancelled := Some true |}) => n =? -1
  | _ => false
  end.

Definition count (p : Action -> bool) (o : list Action) : nat :=
  length (List.filter p o).

(** The timers pending with a given kind of closure. *)
Definition isFallback (t : Timer) : bool :=
  match callback t with
  | SquirrelFallback _ => true
  | _ => false
  end.

Definition isTick (t : Timer) : bool :=
  match callback t with
  | AutoInstallTick => true
  | _ => false
  end.

Definition pending (p : Timer -> bool) (w : World) : list nat :=
  List.map fst (List.filter (fun kt => p (snd kt)) (map_to_list (timers w))).

(** *** Reading the state *)

(** What [sendToRenderer] hands to a window: nothing when there is no window
    or it is destroyed. *)
Definition deliveredTo (win : option BrowserWindow) (a : Action) : list Action :=
  match win with
  | Some b => if isDestroyed b then [] else [a]
  | None => []
  end.

Definition rendererAlive (w : World) : Prop :=
  mainWindow w = Some {| isDestroyed := false |}.

(** The pending timers once the timer a field holds is cleared, and what the
    clearing shows in the output. *)
Definition withoutTimer (h : option nat) (ts : gmap nat Timer) : gmap nat Timer :=
  match h with
  | Some old => delete old ts
  | None => ts
  end.

Definition cleared (mk : nat -> Action) (h : option nat) : list Action :=
  match h with
  | Some old => [mk old]
  | None => []
  end.

Definition tickTimer (d : Z) : Timer :=
  {| due := d; period := Some 1000; callback := AutoInstallTick |}.

Definition fallbackTimer (d : Z) (listener : nat) : Timer :=
  {| due := d; period := None; callback := SquirrelFallback listener |}.

(** [process.platform === 'darwin' && !this.nativeSquirrelReady] *)
Definition squirrelPending (w : World) : bool := isDarwin w && negb (nativeSquirrelReady w).

(** The world in which the fallback closure runs its two guards. *)
Definition fallbackEntered (listener : nat) (w : World) : World :=
  set_listeners (dropListener listener (listeners w)) (set_squirrelFallbackTimer None w).

(** The world in which the closure of a fired timer runs. *)
Definition dequeued (h : nat) (t : Timer) (w : World) : World :=
  let start := Z.max (now w) (due t) in
  set_timers
    match period t with
    | Some p => <[h := {| due := start + p; period := Some p; callback := callback t |}]> (timers w)
    | None => delete h (timers w)
    end
    (set_now start w).

(** A countdown is running on the interval [h], a handle handed out before,
    with [c] seconds left. *)
Definition Running (h : nat) (c : Z) (w : World) : Prop :=
  (h < nextHandle w)%nat /\
  (exists d : Z, timers w !! h = Some (tickTimer d)) /\
  autoInstallTimer w = Some h /\
  autoInstallCountdown w = c.

(** The seconds [n] ticks publish when [c] seconds are left:
    [c - 1], [c - 2], ..., [c - n]. *)
Fixpoint countdownFrom (c : Z) (n : nat) : list Z :=
  match n with
  | O => []
  | S n' => (c - 1) :: countdownFrom (c - 1) n'
  end.

(** [k] firings of the interval [h]. *)
Definition firings (h : nat) (k : nat) : list Event := repeat (TimerFires h) k.

(** *** Words for the properties *)

(** No [onReady] listener of an earlier staging wait is registered. *)
Definition noOnReady (ls : list Listener) : bool :=
  forallb (fun l => match l with OnReady _ => false | MarkSquirrelReady => true end) ls.

(** Every pending interval of the countdown is the one [autoInstallTimer]
    holds. *)
Definition TickOwned (w : World) : Prop :=
  forall (h : nat) (t : Timer),
    timers w !! h = Some t -> callback t = AutoInstallTick -> autoInstallTimer w = Some h.

(** The handle [autoInstallTimer] holds was handed out before. *)
Definition TimerFresh (w : World) : Prop :=
  forall h : nat, autoInstallTimer w = Some h -> (h < nextHandle w)%nat.

(** The handle [h] was handed out and is no longer pending. *)
Definition Gone (h : nat) (w : World) : Prop :=
  (h < nextHandle w)%nat /\ timers w !! h = None.

(** The world after the native event when no [onReady] listener is
    registered: with a listener at all, Squirrel is recorded as ready. *)
Definition marked (ls : list Listener) (w : World) : World :=
  set_nativeSquirrelReady
    match ls with
    | [] => nativeSquirrelReady w
    | _ :: _ => true
    end w.

(** The event that begins a staging wait. *)
Definition startsWait (e : Event) : bool :=
  match e with
  | UpdateDownloaded _ => true
  | _ => false
  end.

(** The events that begin a new cycle or install by hand. *)
Definition beginsCycle (e : Event) : bool :=
  match e with
  | UpdateDownloaded _ | IpcInstall => true
  | _ => false
  end.

(** The payload a status carries for its tag. *)
Definition Carries (s : UpdateStatus.t) : Prop :=
  match UpdateStatus.status s with
  | Available | Downloaded => is_Some (UpdateStatus.info s)
  | Downloading => is_Some (UpdateStatus.progress s)
  | Error => is_Some (UpdateStatus.error s)
  | Idle | Checking | NotAvailable => True
  end.

(** The shape the specification gives a status: a payload field is present
    only under the tags it belongs to. *)
Definition ShapedByTag (s : UpdateStatus.t) : Prop :=
  (is_Some (UpdateStatus.info s) ->
   UpdateStatus.status s = Available \/ UpdateStatus.status s = NotAvailable \/
   UpdateStatus.status s = Downloaded) /\
  (is_Some (UpdateStatus.progress s) -> UpdateStatus.status s = Downloading) /\
  (is_Some (UpdateStatus.error s) -> UpdateStatus.status s = Error).

(** A check has come to an end: the status is neither [checking] nor
    [idle]. *)
Definition settled (s : Tag) : bool :=
  negb (UpdateStatus.Tag_eqb s Checking || UpdateStatus.Tag_eqb s Idle).

(** The first event of a countdown, [{ seconds: 5 }]. *)
Definition countdownStarted : Action :=
  Send "update:auto-install-countdown"
    (CountdownPayload {| seconds := AUTO_INSTALL_DELAY_SECONDS; cancelled := None |}).

(** A staging wait is armed: its [onReady] listener [L] is the only one
    registered, its fallback timeout [F] is pending and due at [d], no
    cancellation was issued and no countdown is running. *)
Definition Armed (L F : nat) (d : Z) (w : World) : Prop :=
  (exists ls : list Listener, listeners w = ls ++ [OnReady L] /\ noOnReady ls = true) /\
  squirrelFallbackTimer w = Some F /\
  timers w !! F = Some (fallbackTimer d L) /\
  autoInstallCancelled w = false /\
  autoInstallTimer w = None /\
  (F < nextHandle w)%nat.

(** The events that leave the wait, the countdown and the timers alone. *)
Definition passive (e : Event) : bool :=
  match e with
  | CheckingForUpdate | UpdateAvailable _ | UpdateNotAvailable _
  | DownloadProgress _ | UpdaterError _ | Elapse _ | CheckSettles _
  | IpcSetAutoDownload _ | IpcSetMainWindow _ | WindowDestroyed => true
  | _ => false
  end.

(** A countdown tick sent to the renderer. *)
Definition isTickEvent (a : Action) : bool :=
  match a with
  | Send _ (CountdownPayload {| seconds := _; cancelled := None |}) => true
  | _ => false
  end.

(** An action that shows neither a tick, nor the start of a countdown, nor
    an install. *)
Definition quietAction (a : Action) : bool :=
  negb (isTickEvent a) && negb (isCountdownStart a) && negb (isInstall a).

(** The state a cancellation leaves: the flag is set, no countdown runs and
    no interval of a countdown is pending. *)
Definition Quiet (w : World) : Prop :=
  autoInstallCancelled w = true /\ autoInstallTimer w = None /\ TickOwned w.

(** *** Worlds and schedules to run the updater on *)

Definition release : UpdateInfo := {| UpdateStatus.version := "1.0.1" |}.

(** macOS, a renderer window, auto-download on. *)
Definition macReady : World :=
  exec (run [IpcSetMainWindow {| isDestroyed := false |}; IpcSetAutoDownload true])
       (initial "darwin").

(** A second downloaded event ten seconds after the first, Squirrel silent
    throughout; then each timer at its due time. *)
Definition twoDownloads : list Event :=
  [UpdateDownloaded release; Elapse 10000; UpdateDownloaded release].

(** The fallback of the first wait and its countdown, then the fallback of
    the second wait and its countdown. *)
Definition twoDownloadsToTheEnd : list Event :=
  twoDownloads ++
  [TimerFires 1] ++ firings 4 5 ++
  [TimerFires 3] ++ firings 6 5.

Definition isClearTimeout (a : Action) : bool :=
  match a with
  | ClearTimeout _ => true
  | _ => false
  end.

(** [this.status.status] *)
Definition tagOf (w : World) : Tag := UpdateStatus.status (status w).


(** A downloaded event, a cancellation, and ten seconds later a second
    downloaded event, Squirrel silent throughout. *)
Definition cancelledThenDownloaded : list Event :=
  [UpdateDownloaded release; IpcCancelAutoInstall; Elapse 10000; UpdateDownloaded release].

(** The fallback of the second wait fires at its bound and the native signal
    comes half a second later; then the countdown runs out. *)
Definition signalAMomentLater : list Event :=
  cancelledThenDownloaded ++
  [TimerFires 3; Elapse 500; NativeUpdateDownloaded] ++ firings 5 5.

(** The fallback of the second wait fires at its bound and its countdown
    runs out; the native signal comes then, and the countdown it starts runs
    out too. *)
Definition signalAfterInstall : list Event :=
  cancelledThenDownloaded ++
  [TimerFires 3] ++ firings 4 5 ++
  [NativeUpdateDownloaded] ++ firings 6 5.


(** A check begins and is rejected with [undefined] or with [null]. *)
Definition rejectedWithUndefined : list Event :=
  [CheckingForUpdate; CheckSettles (Rejects ThrownUndefined)].

Definition rejectedWithNull : list Event :=
  [CheckingForUpdate; CheckSettles (Rejects ThrownNull)].

(** An update becomes available and its download makes progress. *)
Definition downloadInProgress : World :=
  exec (run [UpdateAvailable release; DownloadProgress {| UpdateStatus.percent := 10 |}])
       (initial "darwin").

End Updater.

(** ** The constructor's configuration of electron-updater *)

Module Feed.

Import ChannelResolver.

(** Base CDN URL (without trailing channel path). *)
Definition OSS_BASE_URL : string := "https://oss.intelli-spectrum.com".

(** The argument of [autoUpdater.setFeedURL]. *)
Record FeedOptions : Type := {
  provider : string;
  url : string;
  useMultipleRangeRequest : bool
}.

(** What the constructor and the setters write on [autoUpdater]. *)
Record Config : Type := {
  autoDownload : bool;
  autoInstallOnAppQuit : bool;
  channel : string;
  feed : FeedOptions
}.

(** [`${OSS_BASE_URL}/${channel}`] *)
Definition feedUrl (channel : string) : string := OSS_BASE_URL +:+ "/" +:+ channel.

(** The constructor, on [app.getVersion()]. *)
Definition configure (version : string) : Config :=
  let channel := detectChannel version in
  {| autoDownload := false;
     autoInstallOnAppQuit := true;
     channel := channel;
     feed := {| provider := "generic"; url := feedUrl channel;
                useMultipleRangeRequest := false |} |}.

(** [setChannel(channel)]: [autoUpdater.channel = channel]. *)
Definition setChannel (c : string) (cfg : Config) : Config :=
  {| autoDownload := autoDownload cfg;
     autoInstallOnAppQuit := autoInstallOnAppQuit cfg;
     channel := c;
     feed := feed cfg |}.

End Feed.

(** ** The IPC handlers of [registerUpdateHandlers] *)

Module Reply.

(** What a handler answers: [{ success }], [{ success, error }],
    [{ success, status }] or [{ success, error, status }]. *)
Record t : Type := {
  success : bool;
  error : option string;
  status : option UpdateStatus.t
}.

End Reply.

Module Ipc.

Import Updater.

(** [getStatus()] *)
Definition getStatus : M UpdateStatus.t :=
  w ← get;
  mret (status w).

(** ['update:check'] *)
Definition handleCheck (outcome : CheckOutcome) : M Reply.t :=
  c ← checkForUpdates outcome;
  s ← getStatus;
  match c with
  | Returns _ =>
      mret {| Reply.success := true; Reply.error := None; Reply.status := Some s |}
  | Throws e =>
      mret {| Reply.success := false; Reply.error := Some (toString e);
              Reply.status := Some s |}
  end.

End Ipc.

(** ** Further words for the properties *)

Module Observations.

Import Updater.
Import UpdateStatus(Tag(..), UpdateInfo, ProgressInfo).

(** A [webContents.send]. *)
Definition isSend (a : Action) : bool :=
  match a with
  | Send _ _ => true
  | _ => false
  end.

(** There is no window, or the window is destroyed. *)
Definition windowless (w : World) : Prop :=
  match mainWindow w with
  | Some win => isDestroyed win = true
  | None => True
  end.

(** [setMainWindow(window)] *)
Definition attachesWindow (e : Event) : bool :=
  match e with
  | IpcSetMainWindow _ => true
  | _ => false
  end.

(** A window is attached or destroyed. *)
Definition windowEvent (e : Event) : bool :=
  match e with
  | IpcSetMainWindow _ | WindowDestroyed => true
  | _ => false
  end.

(** The statuses sent on ['update:status-changed'], in order. *)
Fixpoint statusesSent (o : list Action) : list UpdateStatus.t :=
  match o with
  | Send _ (StatusPayload s) :: o' => s :: statusesSent o'
  | _ :: o' => statusesSent o'
  | [] => []
  end.

(** The timeout [quitAndInstall] sets, due at [d]. *)
Definition safetyTimer (d : Z) : Timer :=
  {| due := d; period := None; callback := QuitSafety |}.

(** The safety timeout [h] is pending and no field of the updater holds its
    handle. *)
Definition SafetyPending (h : nat) (d : Z) (w : World) : Prop :=
  timers w !! h = Some (safetyTimer d) /\
  (h < nextHandle w)%nat /\
  autoInstallTimer w <> Some h /\
  squirrelFallbackTimer w <> Some h.

(** The event is the firing of the timer [h]. *)
Definition isFiring (h : nat) (e : Event) : bool :=
  match e with
  | TimerFires h' => Nat.eqb h h'
  | _ => false
  end.

(** The handle [squirrelFallbackTimer] holds was handed out before. *)
Definition FallbackFresh (w : World) : Prop :=
  forall h : nat, squirrelFallbackTimer w = Some h -> (h < nextHandle w)%nat.

(** Auto-download is off and nothing of an auto-install is under way. *)
Definition Dormant (w : World) : Prop :=
  autoDownload w = false /\
  timers w = ∅ /\
  noOnReady (listeners w) = true /\
  autoInstallTimer w = None /\
  squirrelFallbackTimer w = None.

(** The events by which the user turns auto-download on or installs by
    hand. *)
Definition userInstalls (e : Event) : bool :=
  match e with
  | IpcSetAutoDownload true | IpcInstall => true
  | _ => false
  end.

(** An action that only reports: a status, an emitted event, or the
    cancellation sentinel. *)
Definition onlyReports (a : Action) : bool :=
  match a with
  | Send _ (StatusPayload _) | Emit _ => true
  | Send _ (CountdownPayload {| seconds := _; cancelled := Some _ |}) => true
  | _ => false
  end.

(** On macOS the constructor's listener is registered. *)
Definition Listening (w : World) : Prop :=
  isDarwin w = true -> In MarkSquirrelReady (listeners w).

(** What entering a staging wait does. *)
Definition isWaitAction (a : Action) : bool :=
  match a with
  | Once _ | SetTimeout _ _ => true
  | _ => false
  end.

(** The platform is not macOS and nothing of a staging wait or of a safety
    timeout exists: every pending timer is the interval of a countdown. *)
Definition OffMac (w : World) : Prop :=
  isDarwin w = false /\
  squirrelFallbackTimer w = None /\
  noOnReady (listeners w) = true /\
  (forall (h : nat) (t : Timer), timers w !! h = Some t -> callback t = AutoInstallTick).

(** What only the staging wait and the safety timeout do. *)
Definition isStagingAction (a : Action) : bool :=
  match a with
  | SetTimeout _ _ | ClearTimeout _ | Once _ | RemoveListener _ | AppQuit => true
  | _ => false
  end.

(** While a countdown runs its remaining seconds are between 1 and the
    delay. *)
Definition Bounded (w : World) : Prop :=
  TickOwned w /\
  (forall h : nat, autoInstallTimer w = Some h ->
     1 <= autoInstallCountdown w <= AUTO_INSTALL_DELAY_SECONDS).

(** A tick, if the action is one, carries between 0 and 5 seconds. *)
Definition tickInRange (a : Action) : bool :=
  match a with
  | Send _ (CountdownPayload {| seconds := n; cancelled := None |}) =>
      (0 <=? n) && (n <=? AUTO_INSTALL_DELAY_SECONDS)
  | _ => true
  end.

(** [{ seconds: -1, cancelled: true }] *)
Definition cancelSentinel : Action :=
  Send "update:auto-install-countdown"
    (CountdownPayload {| seconds := -1; cancelled := Some true |}).

(** The firings of the interval [h] among the events. *)
Definition firingsIn (h : nat) (es : list Event) : nat :=
  length (List.filter (isFiring h) es).

(** An event that is passive, or a firing of the interval [h]. *)
Definition undisturbing (h : nat) (e : Event) : bool := passive e || isFiring h e.

End Observations.

(** * Properties of the channel resolver *)

Section ChannelResolverFacts.

Import ChannelResolver.

Example detectChannel_alpha : detectChannel "0.1.8-alpha.0" = "alpha".
Proof. reflexivity. Qed.

Example detectChannel_beta : detectChannel "1.0.0-beta.1" = "beta".
Proof. reflexivity. Qed.

Example detectChannel_stable : detectChannel "1.0.0" = "latest".
Proof. reflexivity. Qed.

Lemma takeAlpha_not_alpha (s : string) :
  startsAlpha s = false -> takeAlpha s = "".
Proof.
  destruct s as [|c r]; simpl; [reflexivity|].
  intros ->. reflexivity.
Qed.

Lemma takeAlpha_run (tag rest : string) :
  allAlpha tag = true -> startsAlpha rest = false ->
  takeAlpha (tag +:+ rest) = tag.
Proof.
  induction tag as [|c tag IH]; simpl; intros Htag Hrest.
  - apply takeAlpha_not_alpha, Hrest.
  - apply andb_prop in Htag as [Hc Htag]. rewrite Hc.
    f_equal. apply IH; assumption.
Qed.

Lemma startsAlpha_app (p s : string) :
  startsAlpha (p +:+ s) = if startsAlpha p then true
                          else match p with
                               | EmptyString => startsAlpha s
                               | _ => false
                               end.
Proof. destruct p as [|c p]; simpl; [reflexivity|]. destruct (isAlpha c); reflexivity. Qed.

(** A prefix without a label is skipped by the leftmost search, provided
    what follows does not begin with a letter. *)
Lemma matchChannel_skip (pre s : string) :
  hasLabel pre = false -> startsAlpha s = false ->
  matchChannel (pre +:+ s) = matchChannel s.
Proof.
  induction pre as [|c pre IH]; simpl; intros Hpre Hs; [reflexivity|].
  apply orb_false_elim in Hpre as [Hc Hpre].
  destruct (isHyphen c) eqn:Hh.
  - simpl in Hc. rewrite takeAlpha_not_alpha.
    + apply IH; assumption.
    + rewrite startsAlpha_app, Hc. destruct pre; [exact Hs | reflexivity].
  - apply IH; assumption.
Qed.

Lemma matchChannel_none (v : string) :
  hasLabel v = false -> matchChannel v = None.
Proof.
  induction v as [|c v IH]; simpl; intros H; [reflexivity|].
  apply orb_false_elim in H as [Hc Hv].
  destruct (isHyphen c); simpl in Hc.
  - rewrite (takeAlpha_not_alpha _ Hc). apply IH, Hv.
  - apply IH, Hv.
Qed.

Lemma hyphenFree_hasLabel (s : string) : hyphenFree s = true -> hasLabel s = false.
Proof.
  induction s as [|c s IH]; simpl; intros H; [reflexivity|].
  apply andb_prop in H as [Hc Hs]. apply negb_true_iff in Hc.
  rewrite Hc, (IH Hs). reflexivity.
Qed.

Lemma matchChannel_at_label (r : string) :
  startsAlpha r = true -> matchChannel (String "-" r) = Some (takeAlpha r).
Proof.
  destruct r as [|c r]; simpl; [discriminate|].
  intros ->. reflexivity.
Qed.

Lemma isHyphen_eq (c : ascii) : isHyphen c = true -> c = "-"%char.
Proof. unfold isHyphen. apply Ascii.eqb_eq. Qed.

(** The leftmost label: a string with a label splits at its first hyphen
    that is followed by a letter, and the search returns the letters there. *)
Lemma matchChannel_first_label (v : string) :
  hasLabel v = true ->
  exists pre r : string,
    v = pre +:+ "-" +:+ r /\ hasLabel pre = false /\ startsAlpha r = true /\
    matchChannel v = Some (takeAlpha r).
Proof.
  induction v as [|c v IH]; simpl; [discriminate|].
  destruct (isHyphen c && startsAlpha v) eqn:Hc; simpl.
  - intros _. apply andb_prop in Hc as [Hh Hv].
    apply isHyphen_eq in Hh. subst c.
    exists "", v. repeat split; try assumption.
    apply (matchChannel_at_label v Hv).
  - intros Hv. destruct (IH Hv) as (pre & r & Heq & Hpre & Hr & Hm).
    exists (String c pre), r. repeat split; try assumption.
    + exact (f_equal (String c) Heq).
    + cbn [hasLabel]. rewrite Hpre, orb_false_r.
      destruct (isHyphen c); [|reflexivity]. simpl in *.
      rewrite Heq, startsAlpha_app in Hc.
      destruct (startsAlpha pre); [discriminate|].
      reflexivity.
    + destruct (isHyphen c); [|exact Hm]. simpl in Hc.
      rewrite (takeAlpha_not_alpha _ Hc). exact Hm.
Qed.

Lemma takeAlpha_nonempty (tag rest : string) :
  tag <> "" -> allAlpha tag = true -> startsAlpha (tag +:+ rest) = true.
Proof.
  destruct tag as [|c tag]; [congruence|]. simpl.
  intros _ H. apply andb_prop in H as [H _]. exact H.
Qed.

Lemma detectChannel_label (pre tag rest : string) :
  hasLabel pre = false -> tag <> "" -> allAlpha tag = true ->
  startsAlpha rest = false ->
  detectChannel (pre +:+ "-" +:+ tag +:+ rest) = tag.
Proof.
  intros Hpre Hne Htag Hrest. unfold detectChannel.
  rewrite matchChannel_skip; [|assumption|reflexivity].
  change ("-" +:+ tag +:+ rest) with (String "-" (tag +:+ rest)).
  rewrite matchChannel_at_label by (apply takeAlpha_nonempty; assumption).
  apply takeAlpha_run; assumption.
Qed.

Lemma hasDot_tail (tag n : string) : hasDot (tag +:+ String "." n) = true.
Proof.
  induction tag as [|c tag IH].
  - reflexivity.
  - change (Ascii.eqb c "." || hasDot (tag +:+ String "." n) = true).
    rewrite IH. apply orb_true_r.
Qed.

Lemma dotAfterHyphen_pattern (core tag n : string) :
  dotAfterHyphen (core +:+ "-" +:+ tag +:+ "." +:+ n) = true.
Proof.
  induction core as [|c core IH].
  - change (true && hasDot (tag +:+ String "." n)
            || dotAfterHyphen (tag +:+ String "." n) = true).
    rewrite hasDot_tail. reflexivity.
  - change (isHyphen c && hasDot (core +:+ "-" +:+ tag +:+ "." +:+ n)
            || dotAfterHyphen (core +:+ "-" +:+ tag +:+ "." +:+ n) = true).
    rewrite IH. apply orb_true_r.
Qed.

(** C5, as the spec words it, fails: ["1.0.0-beta"] does not read
    [<core>-<tag>.<n>] for any core, tag and n, yet [detectChannel] answers
    ["beta"], not ["latest"]. *)
Lemma detectChannel_label_without_number :
  (~ exists tag : string, matches_core_tag_n "1.0.0-beta" tag) /\
  detectChannel "1.0.0-beta" = "beta" /\
  detectChannel "1.0.0-beta" <> "latest".
Proof.
  split; [|split; [reflexivity | discriminate]].
  intros (tag & core & n & Heq & _).
  pose proof (dotAfterHyphen_pattern core tag n) as H.
  rewrite <- Heq in H. discriminate H.
Qed.

(** C5 (amended): [detectChannel] is total; a version in which no hyphen is
    immediately followed by a letter gives ["latest"]; any other version
    gives the longest run of letters after its first hyphen that is followed
    by a letter; in particular [<core>-<tag>.<n>] with a hyphen-free core
    and a non-empty alphabetic tag gives [tag]. *)
Theorem detectChannel_first_label (v : string) :
  (hasLabel v = false -> detectChannel v = "latest") /\
  (hasLabel v = true ->
   exists pre r : string,
     v = pre +:+ "-" +:+ r /\ hasLabel pre = false /\ startsAlpha r = true /\
     detectChannel v = takeAlpha r) /\
  (forall core tag n : string,
     v = core +:+ "-" +:+ tag +:+ "." +:+ n ->
     hyphenFree core = true -> tag <> "" -> allAlpha tag = true ->
     detectChannel v = tag).
Proof.
  split; [|split].
  - intros H. unfold detectChannel. rewrite (matchChannel_none v H). reflexivity.
  - intros H. destruct (matchChannel_first_label v H) as (pre & r & Heq & Hpre & Hr & Hm).
    exists pre, r. unfold detectChannel. rewrite Hm. auto.
  - intros core tag n -> Hcore Hne Htag.
    apply detectChannel_label; auto using hyphenFree_hasLabel.
Qed.

Lemma detectChannel_first_label_witness :
  detectChannel "1.0.0" = "latest" /\
  (exists pre r : string,
     "1.0.0-beta" = pre +:+ "-" +:+ r /\ hasLabel pre = false /\
     startsAlpha r = true /\ detectChannel "1.0.0-beta" = takeAlpha r) /\
  detectChannel "0.1.8-alpha.0" = "alpha".
Proof.
  split; [|split].
  - apply (proj1 (detectChannel_first_label "1.0.0")). reflexivity.
  - apply (proj1 (proj2 (detectChannel_first_label "1.0.0-beta"))). reflexivity.
  - apply (proj2 (proj2 (detectChannel_first_label "0.1.8-alpha.0")) "0.1.8" "alpha" "0");
      [reflexivity | reflexivity | discriminate | reflexivity].
Defined.

End ChannelResolverFacts.

(** * Properties of the updater *)

Import Updater.
Import UpdateStatus(Tag(..), UpdateInfo, ProgressInfo).

(** ** Laws of the monad *)

Lemma exec_bind {A B : Type} (m : M A) (k : A -> M B) (w : World) :
  exec (m ≫= k) w = exec (k (result m w)) (exec m w).
Proof.
  unfold exec, result, mbind, M_bind. destruct (m w) as [[a w1] o1]. simpl.
  destruct (k a w1) as [[b w2] o2]. reflexivity.
Qed.

Lemma output_bind {A B : Type} (m : M A) (k : A -> M B) (w : World) :
  output (m ≫= k) w = output m w ++ output (k (result m w)) (exec m w).
Proof.
  unfold output, exec, result, mbind, M_bind. destruct (m w) as [[a w1] o1]. simpl.
  destruct (k a w1) as [[b w2] o2]. reflexivity.
Qed.

Lemma result_bind {A B : Type} (m : M A) (k : A -> M B) (w : World) :
  result (m ≫= k) w = result (k (result m w)) (exec m w).
Proof.
  unfold exec, result, mbind, M_bind. destruct (m w) as [[a w1] o1]. simpl.
  destruct (k a w1) as [[b w2] o2]. reflexivity.
Qed.

Lemma exec_ret {A : Type} (a : A) (w : World) : exec (mret a) w = w.
Proof. reflexivity. Qed.
Lemma output_ret {A : Type} (a : A) (w : World) : output (mret a) w = [].
Proof. reflexivity. Qed.
Lemma result_ret {A : Type} (a : A) (w : World) : result (mret a) w = a.
Proof. reflexivity. Qed.
Lemma exec_skip (w : World) : exec skip w = w.
Proof. reflexivity. Qed.
Lemma output_skip (w : World) : output skip w = [].
Proof. reflexivity. Qed.
Lemma exec_get (w : World) : exec get w = w.
Proof. reflexivity. Qed.
Lemma output_get (w : World) : output get w = [].
Proof. reflexivity. Qed.
Lemma result_get (w : World) : result get w = w.
Proof. reflexivity. Qed.
Lemma exec_modify (f : World -> World) (w : World) : exec (modify f) w = f w.
Proof. reflexivity. Qed.
Lemma output_modify (f : World -> World) (w : World) : output (modify f) w = [].
Proof. reflexivity. Qed.
Lemma exec_act (a : Action) (w : World) : exec (act a) w = w.
Proof. reflexivity. Qed.
Lemma output_act (a : Action) (w : World) : output (act a) w = [a].
Proof. reflexivity. Qed.

Lemma exec_sendToRenderer (ch : string) (d : Payload) (w : World) :
  exec (sendToRenderer ch d) w = w.
Proof.
  unfold sendToRenderer. rewrite exec_bind, exec_get, result_get.
  destruct (mainWindow w) as [[[]]|]; reflexivity.
Qed.

Lemma output_sendToRenderer (ch : string) (d : Payload) (w : World) :
  output (sendToRenderer ch d) w = deliveredTo (mainWindow w) (Send ch d).
Proof.
  unfold sendToRenderer. rewrite output_bind, exec_get, result_get.
  destruct (mainWindow w) as [[[]]|]; reflexivity.
Qed.

Lemma exec_sendCountdown (c : Countdown) (w : World) : exec (sendCountdown c) w = w.
Proof. apply exec_sendToRenderer. Qed.

Lemma output_sendCountdown (c : Countdown) (w : World) :
  output (sendCountdown c) w =
  deliveredTo (mainWindow w) (Send "update:auto-install-countdown" (CountdownPayload c)).
Proof. apply output_sendToRenderer. Qed.

Create Rewrite HintDb upd.
#[local] Hint Rewrite @exec_bind @output_bind @result_bind
  @exec_ret @output_ret @result_ret exec_skip output_skip
  exec_get output_get result_get exec_modify output_modify exec_act output_act
  exec_sendCountdown output_sendCountdown exec_sendToRenderer output_sendToRenderer
  @app_nil_r @app_nil_l : upd.

(** Run the monad symbolically and read the fields of the updated world. *)
Ltac eval_m :=
  repeat (autorewrite with upd;
          cbn [mainWindow status autoInstallTimer autoInstallCountdown
               nativeSquirrelReady squirrelFallbackTimer autoInstallCancelled
               platform autoDownload timers listeners nextHandle now
               set_mainWindow set_status set_autoInstallTimer
               set_autoInstallCountdown set_nativeSquirrelReady
               set_squirrelFallbackTimer set_autoInstallCancelled
               set_autoDownload set_timers set_listeners set_nextHandle set_now
               due period callback runCallback when]).

(** ** What each method does to the world *)

Lemma exec_clearAutoInstallTimer (w : World) :
  exec clearAutoInstallTimer w =
  set_autoInstallTimer None (set_timers (withoutTimer (autoInstallTimer w) (timers w)) w).
Proof.
  unfold clearAutoInstallTimer, clearInterval. eval_m.
  destruct w as [? ? [old|] ? ? ? ? ? ? ? ? ? ?]; reflexivity.
Qed.

Lemma output_clearAutoInstallTimer (w : World) :
  output clearAutoInstallTimer w = cleared ClearInterval (autoInstallTimer w).
Proof.
  unfold clearAutoInstallTimer, clearInterval. eval_m.
  destruct (autoInstallTimer w); reflexivity.
Qed.

Lemma exec_clearSquirrelFallbackTimer (w : World) :
  exec clearSquirrelFallbackTimer w =
  set_squirrelFallbackTimer None
    (set_timers (withoutTimer (squirrelFallbackTimer w) (timers w)) w).
Proof.
  unfold clearSquirrelFallbackTimer, clearTimeout. eval_m.
  destruct w as [? ? ? ? ? [old|] ? ? ? ? ? ? ?]; reflexivity.
Qed.

Lemma output_clearSquirrelFallbackTimer (w : World) :
  output clearSquirrelFallbackTimer w = cleared ClearTimeout (squirrelFallbackTimer w).
Proof.
  unfold clearSquirrelFallbackTimer, clearTimeout. eval_m.
  destruct (squirrelFallbackTimer w); reflexivity.
Qed.

Lemma exec_startAutoInstallCountdown (w : World) :
  exec startAutoInstallCountdown w =
  set_autoInstallTimer (Some (nextHandle w))
    (set_nextHandle (S (nextHandle w))
       (set_timers (<[nextHandle w := tickTimer (now w + 1000)]>
                      (withoutTimer (autoInstallTimer w) (timers w)))
          (set_autoInstallCountdown AUTO_INSTALL_DELAY_SECONDS w))).
Proof.
  unfold startAutoInstallCountdown, setInterval. eval_m.
  rewrite exec_clearAutoInstallTimer. eval_m. reflexivity.
Qed.

Lemma output_startAutoInstallCountdown (w : World) :
  output startAutoInstallCountdown w =
  cleared ClearInterval (autoInstallTimer w) ++
  deliveredTo (mainWindow w)
    (Send "update:auto-install-countdown"
       (CountdownPayload {| seconds := AUTO_INSTALL_DELAY_SECONDS; cancelled := None |})) ++
  [SetInterval (nextHandle w) 1000].
Proof.
  unfold startAutoInstallCountdown, setInterval. eval_m.
  rewrite exec_clearAutoInstallTimer, output_clearAutoInstallTimer. eval_m. reflexivity.
Qed.

Lemma exec_quitAndInstall (w : World) :
  exec quitAndInstall w =
  if squirrelPending w
  then set_nextHandle (S (nextHandle w))
         (set_timers (<[nextHandle w := {| due := now w + QUIT_SAFETY_TIMEOUT_MS;
                                           period := None; callback := QuitSafety |}]>
                        (timers w)) w)
  else w.
Proof.
  unfold quitAndInstall, setTimeout, squirrelPending. eval_m.
  destruct (isDarwin w && negb (nativeSquirrelReady w)); eval_m; reflexivity.
Qed.

Lemma output_quitAndInstall (w : World) :
  output quitAndInstall w =
  QuitAndInstall ::
  (if squirrelPending w then [SetTimeout (nextHandle w) QUIT_SAFETY_TIMEOUT_MS] else []).
Proof.
  unfold quitAndInstall, setTimeout, squirrelPending. eval_m.
  destruct (isDarwin w && negb (nativeSquirrelReady w)); eval_m; reflexivity.
Qed.

Lemma exec_cancelAutoInstall (w : World) :
  exec cancelAutoInstall w =
  set_autoInstallTimer None
    (set_squirrelFallbackTimer None
       (set_timers (withoutTimer (autoInstallTimer w)
                      (withoutTimer (squirrelFallbackTimer w) (timers w)))
          (set_autoInstallCancelled true w))).
Proof.
  unfold cancelAutoInstall. eval_m.
  rewrite exec_clearSquirrelFallbackTimer. eval_m.
  rewrite exec_clearAutoInstallTimer. eval_m. reflexivity.
Qed.

Lemma output_cancelAutoInstall (w : World) :
  output cancelAutoInstall w =
  cleared ClearTimeout (squirrelFallbackTimer w) ++
  cleared ClearInterval (autoInstallTimer w) ++
  deliveredTo (mainWindow w)
    (Send "update:auto-install-countdown"
       (CountdownPayload {| seconds := -1; cancelled := Some true |})).
Proof.
  unfold cancelAutoInstall. eval_m.
  rewrite exec_clearSquirrelFallbackTimer, output_clearSquirrelFallbackTimer. eval_m.
  rewrite exec_clearAutoInstallTimer, output_clearAutoInstallTimer. eval_m. reflexivity.
Qed.

Lemma exec_waitForSquirrelThenAutoInstall (w : World) :
  exec waitForSquirrelThenAutoInstall w =
  set_squirrelFallbackTimer (Some (S (nextHandle w)))
    (set_nextHandle (S (S (nextHandle w)))
       (set_timers (<[S (nextHandle w) :=
                        fallbackTimer (now w + SQUIRREL_STAGING_TIMEOUT_MS) (nextHandle w)]>
                      (timers w))
          (set_listeners (listeners w ++ [OnReady (nextHandle w)])
             (set_autoInstallCancelled false w)))).
Proof.
  unfold waitForSquirrelThenAutoInstall, onceUpdateDownloaded, setTimeout. eval_m.
  reflexivity.
Qed.

Lemma output_waitForSquirrelThenAutoInstall (w : World) :
  output waitForSquirrelThenAutoInstall w =
  [Once (nextHandle w); SetTimeout (S (nextHandle w)) SQUIRREL_STAGING_TIMEOUT_MS].
Proof.
  unfold waitForSquirrelThenAutoInstall, onceUpdateDownloaded, setTimeout. eval_m.
  reflexivity.
Qed.

Lemma exec_updateStatus (p : UpdateStatus.Partial) (w : World) :
  exec (updateStatus p) w = set_status (UpdateStatus.spread (status w) p) w.
Proof. unfold updateStatus. eval_m. reflexivity. Qed.

Lemma output_updateStatus (p : UpdateStatus.Partial) (w : World) :
  output (updateStatus p) w =
  deliveredTo (mainWindow w)
    (Send "update:status-changed" (StatusPayload (UpdateStatus.spread (status w) p))).
Proof. unfold updateStatus. eval_m. reflexivity. Qed.

Lemma exec_onReady (w : World) :
  exec onReady w =
  let w1 := exec clearSquirrelFallbackTimer w in
  if autoInstallCancelled w then w1 else exec startAutoInstallCountdown w1.
Proof.
  unfold onReady. eval_m. rewrite exec_clearSquirrelFallbackTimer. eval_m.
  destruct (autoInstallCancelled w); reflexivity.
Qed.

Lemma output_onReady (w : World) :
  output onReady w =
  cleared ClearTimeout (squirrelFallbackTimer w) ++
  (if autoInstallCancelled w then []
   else output startAutoInstallCountdown (exec clearSquirrelFallbackTimer w)).
Proof.
  unfold onReady. eval_m.
  rewrite output_clearSquirrelFallbackTimer, exec_clearSquirrelFallbackTimer. eval_m.
  destruct (autoInstallCancelled w); reflexivity.
Qed.

Lemma exec_squirrelFallback (listener : nat) (w : World) :
  exec (squirrelFallback listener) w =
  if autoInstallCancelled w then fallbackEntered listener w
  else match autoInstallTimer w with
       | None => exec startAutoInstallCountdown (fallbackEntered listener w)
       | Some _ => fallbackEntered listener w
       end.
Proof.
  unfold squirrelFallback, removeListener. eval_m.
  destruct (autoInstallCancelled w); [reflexivity|].
  destruct (autoInstallTimer w); reflexivity.
Qed.

Lemma output_squirrelFallback (listener : nat) (w : World) :
  output (squirrelFallback listener) w =
  RemoveListener listener ::
  (if autoInstallCancelled w then []
   else match autoInstallTimer w with
        | None => output startAutoInstallCountdown (fallbackEntered listener w)
        | Some _ => []
        end).
Proof.
  unfold squirrelFallback, removeListener. eval_m.
  destruct (autoInstallCancelled w); [reflexivity|].
  destruct (autoInstallTimer w); reflexivity.
Qed.

Lemma exec_autoInstallTick (w : World) :
  exec autoInstallTick w =
  let w1 := set_autoInstallCountdown (autoInstallCountdown w - 1) w in
  if autoInstallCountdown w - 1 <=? 0
  then exec quitAndInstall (exec clearAutoInstallTimer w1)
  else w1.
Proof.
  unfold autoInstallTick. eval_m.
  destruct (autoInstallCountdown w - 1 <=? 0); eval_m; reflexivity.
Qed.

Lemma output_autoInstallTick (w : World) :
  output autoInstallTick w =
  let w1 := set_autoInstallCountdown (autoInstallCountdown w - 1) w in
  deliveredTo (mainWindow w)
    (Send "update:auto-install-countdown"
       (CountdownPayload {| seconds := autoInstallCountdown w - 1; cancelled := None |})) ++
  (if autoInstallCountdown w - 1 <=? 0
   then output clearAutoInstallTimer w1 ++ output quitAndInstall (exec clearAutoInstallTimer w1)
   else []).
Proof.
  unfold autoInstallTick. eval_m.
  destruct (autoInstallCountdown w - 1 <=? 0); eval_m; reflexivity.
Qed.

Lemma exec_fireTimer (h : nat) (w : World) :
  exec (fireTimer h) w =
  match timers w !! h with
  | Some t => exec (runCallback (callback t)) (dequeued h t w)
  | None => w
  end.
Proof.
  unfold fireTimer. eval_m. destruct (timers w !! h); eval_m; reflexivity.
Qed.

Lemma output_fireTimer (h : nat) (w : World) :
  output (fireTimer h) w =
  match timers w !! h with
  | Some t => output (runCallback (callback t)) (dequeued h t w)
  | None => []
  end.
Proof.
  unfold fireTimer. eval_m. destruct (timers w !! h); eval_m; reflexivity.
Qed.

Lemma exec_callAll_cons (l : Listener) (ls : list Listener) (w : World) :
  exec (callAll (l :: ls)) w = exec (callAll ls) (exec (callListener l) w).
Proof. cbn [callAll]. eval_m. reflexivity. Qed.

Lemma output_callAll_cons (l : Listener) (ls : list Listener) (w : World) :
  output (callAll (l :: ls)) w =
  output (callListener l) w ++ output (callAll ls) (exec (callListener l) w).
Proof. cbn [callAll]. eval_m. reflexivity. Qed.

Lemma exec_run_cons (e : Event) (es : list Event) (w : World) :
  exec (run (e :: es)) w = exec (run es) (exec (step e) w).
Proof. cbn [run]. eval_m. reflexivity. Qed.

Lemma output_run_cons (e : Event) (es : list Event) (w : World) :
  output (run (e :: es)) w = output (step e) w ++ output (run es) (exec (step e) w).
Proof. cbn [run]. eval_m. reflexivity. Qed.

Lemma exec_when (b : bool) (m : M unit) (w : World) :
  exec (when b m) w = if b then exec m w else w.
Proof. destruct b; reflexivity. Qed.

Lemma output_when (b : bool) (m : M unit) (w : World) :
  output (when b m) w = if b then output m w else [].
Proof. destruct b; reflexivity. Qed.

#[local] Hint Rewrite exec_when output_when
  exec_clearAutoInstallTimer output_clearAutoInstallTimer
  exec_clearSquirrelFallbackTimer output_clearSquirrelFallbackTimer
  exec_startAutoInstallCountdown output_startAutoInstallCountdown
  exec_quitAndInstall output_quitAndInstall exec_cancelAutoInstall output_cancelAutoInstall
  exec_waitForSquirrelThenAutoInstall output_waitForSquirrelThenAutoInstall
  exec_updateStatus output_updateStatus exec_onReady output_onReady
  exec_squirrelFallback output_squirrelFallback exec_autoInstallTick output_autoInstallTick
  exec_fireTimer output_fireTimer : upd.

(** Read the fields of an updated world. *)
Ltac fields :=
  cbn [mainWindow status autoInstallTimer autoInstallCountdown
       nativeSquirrelReady squirrelFallbackTimer autoInstallCancelled
       platform autoDownload timers listeners nextHandle now
       set_mainWindow set_status set_autoInstallTimer
       set_autoInstallCountdown set_nativeSquirrelReady
       set_squirrelFallbackTimer set_autoInstallCancelled
       set_autoDownload set_timers set_listeners set_nextHandle set_now
       due period callback runCallback callListener step] in *.

Ltac unfold_handlers :=
  unfold onCheckingForUpdate, onUpdateAvailable, onUpdateNotAvailable,
    onDownloadProgress, onUpdateDownloaded, onError,
    emitNativeUpdateDownloaded, checkForUpdates, setAutoDownload,
    setMainWindow, quitSafety, fallbackEntered, dequeued, squirrelPending, isDarwin,
    runCallback, callListener in *.

(** Evaluate a step, splitting on every test it makes. *)
Ltac crunch :=
  repeat (unfold_handlers; autorewrite with upd; fields;
          try match goal with
              | |- context [if ?b then _ else _] => destruct b eqn:?
              | |- context [match ?x with _ => _ end] => destruct x eqn:?
              end).

(** Induction along a run, for an invariant of the world and a property of
    every action, over the events a predicate admits. *)
Lemma run_invariant (I : World -> Prop) (R : Action -> Prop) (ok : Event -> bool) :
  (forall e w, ok e = true -> I w -> I (exec (step e) w) /\ Forall R (output (step e) w)) ->
  forall es w, forallb ok es = true -> I w ->
    I (exec (run es) w) /\ Forall R (output (run es) w).
Proof.
  intros Hstep es. induction es as [|e es IH]; intros w Hok Hw.
  - split; [exact Hw | constructor].
  - cbn [forallb] in Hok. apply andb_prop in Hok as [He Hes].
    destruct (Hstep e w He Hw) as [Hw1 Ho1].
    destruct (IH _ Hes Hw1) as [Hw2 Ho2].
    rewrite exec_run_cons, output_run_cons. split; [exact Hw2|].
    apply Forall_app. split; assumption.
Qed.

Lemma lookup_withoutTimer_None (h : nat) (o : option nat) (ts : gmap nat Timer) :
  ts !! h = None -> withoutTimer o ts !! h = None.
Proof. destruct o; simpl; [|done]. intros. rewrite lookup_delete. case_decide; done. Qed.

Ltac gone := 
  split; fields; try lia;
  repeat first [ rewrite lookup_insert_ne by (first [lia | congruence])
               | apply lookup_withoutTimer_None
               | rewrite lookup_delete; case_decide; [reflexivity|] ];
  try done.

Lemma Gone_callAll (h0 : nat) (ls : list Listener) (w : World) :
  Gone h0 w -> Gone h0 (exec (callAll ls) w).
Proof.
  revert w. induction ls as [|l ls IH]; intros w Hg; [exact Hg|].
  rewrite exec_callAll_cons. apply IH.
  destruct Hg as [Hlt Hn]. destruct l; crunch; gone.
Qed.

Lemma Gone_step (h0 : nat) (e : Event) (w : World) :
  Gone h0 w -> Gone h0 (exec (step e) w).
Proof.
  intros Hg. destruct e; try solve [destruct Hg as [Hlt Hn]; crunch; gone].
  unfold step, emitNativeUpdateDownloaded. autorewrite with upd.
  apply Gone_callAll, Hg.
Qed.

Lemma Gone_run (h0 : nat) (es : list Event) (w : World) :
  Gone h0 w -> Gone h0 (exec (run es) w).
Proof.
  intros Hg.
  apply (run_invariant (Gone h0) (fun _ => True) (fun _ => true)); auto.
  - intros e w' _ Hw'. split; [apply Gone_step, Hw' | apply Forall_forall; auto].
  - clear. induction es; auto.
Qed.

(** A timer that is gone fires nothing, whatever happened since. *)
Lemma Gone_never_fires (h0 : nat) (es : list Event) (w : World) :
  Gone h0 w ->
  exec (step (TimerFires h0)) (exec (run es) w) = exec (run es) w /\
  output (step (TimerFires h0)) (exec (run es) w) = [].
Proof.
  intros Hg. destruct (Gone_run h0 es w Hg) as [_ Hn].
  cbn [step]. rewrite exec_fireTimer, output_fireTimer, Hn. split; reflexivity.
Qed.

(** ** Reading the output of a concatenation *)

Lemma ticks_app (a b : list Action) : ticks (a ++ b) = ticks a ++ ticks b.
Proof.
  induction a as [|x a IH]; [reflexivity|].
  destruct x as [ch [s|[n [c|]]]| | | | | | | | |]; cbn [ticks app]; rewrite IH; reflexivity.
Qed.

Lemma count_app (p : Action -> bool) (a b : list Action) :
  count p (a ++ b) = (count p a + count p b)%nat.
Proof. unfold count. rewrite List.filter_app, length_app. reflexivity. Qed.

Lemma count_deliveredTo (p : Action -> bool) (win : option BrowserWindow) (a : Action) :
  p a = false -> count p (deliveredTo win a) = 0%nat.
Proof.
  intros Hp. destruct win as [[[]]|]; cbn; rewrite ?Hp; reflexivity.
Qed.

(** ** The countdown *)

Lemma Running_start (w : World) :
  Running (nextHandle w) AUTO_INSTALL_DELAY_SECONDS (exec startAutoInstallCountdown w).
Proof.
  rewrite exec_startAutoInstallCountdown. unfold Running. fields.
  split; [lia|]. split; [|split; reflexivity].
  exists (now w + 1000). apply lookup_insert_eq.
Qed.

(** A tick above one second decrements, publishes and keeps running. *)
Lemma tick_continues (h : nat) (c : Z) (w : World) :
  Running h c w -> 1 < c ->
  Running h (c - 1) (exec (step (TimerFires h)) w) /\
  output (step (TimerFires h)) w =
    deliveredTo (mainWindow w)
      (Send "update:auto-install-countdown"
         (CountdownPayload {| seconds := c - 1; cancelled := None |})) /\
  mainWindow (exec (step (TimerFires h)) w) = mainWindow w.
Proof.
  intros (Hf & [d Ht] & Ha & Hc) Hlt. cbn [step].
  rewrite exec_fireTimer, output_fireTimer, Ht.
  unfold tickTimer, dequeued. fields. autorewrite with upd. cbn zeta. fields.
  subst c. destruct (autoInstallCountdown w - 1 <=? 0) eqn:Hle; [lia|].
  autorewrite with upd. fields. unfold Running. fields.
  repeat split; try reflexivity; try assumption.
  eexists. apply lookup_insert_eq.
Qed.

(** The tick that reaches zero publishes it, stops the interval and
    installs. *)
Lemma tick_expires (h : nat) (c : Z) (w : World) :
  Running h c w -> c <= 1 ->
  output (step (TimerFires h)) w =
    deliveredTo (mainWindow w)
      (Send "update:auto-install-countdown"
         (CountdownPayload {| seconds := c - 1; cancelled := None |})) ++
    [ClearInterval h; QuitAndInstall] ++
    (if squirrelPending w then [SetTimeout (nextHandle w) QUIT_SAFETY_TIMEOUT_MS] else []) /\
  timers (exec (step (TimerFires h)) w) !! h = None /\
  autoInstallTimer (exec (step (TimerFires h)) w) = None.
Proof.
  intros (Hf & [d Ht] & Ha & Hc) Hle. cbn [step].
  rewrite exec_fireTimer, output_fireTimer, Ht.
  unfold tickTimer, dequeued. fields. autorewrite with upd. cbn zeta. fields.
  subst c. destruct (autoInstallCountdown w - 1 <=? 0) eqn:Hle'; [|lia].
  autorewrite with upd. fields. rewrite Ha. unfold squirrelPending, isDarwin. fields.
  cbn [cleared withoutTimer app].
  repeat split.
  - destruct (String.eqb (platform w) "darwin" && negb (nativeSquirrelReady w)); fields.
    + rewrite lookup_insert_ne by lia. rewrite lookup_delete_eq. reflexivity.
    + apply lookup_delete_eq.
  - destruct (String.eqb (platform w) "darwin" && negb (nativeSquirrelReady w)); reflexivity.
Qed.

Lemma firings_gone (h : nat) (k : nat) (w : World) :
  timers w !! h = None ->
  exec (run (firings h k)) w = w /\ output (run (firings h k)) w = [].
Proof.
  intros Hn. induction k as [|k [IHe IHo]]; [split; reflexivity|].
  unfold firings in *. cbn [repeat]. rewrite exec_run_cons, output_run_cons.
  cbn [step]. rewrite exec_fireTimer, output_fireTimer, Hn. auto.
Qed.

Lemma ticks_delivered_alive (w : World) (c : Z) :
  rendererAlive w ->
  ticks (deliveredTo (mainWindow w)
           (Send "update:auto-install-countdown"
              (CountdownPayload {| seconds := c; cancelled := None |}))) = [c].
Proof. unfold rendererAlive. intros ->. reflexivity. Qed.

(** [k] ticks of a countdown with [n] seconds left: the seconds published
    descend one by one and stop at zero, the install happens once, at the
    [n]-th tick, and no countdown is started. *)
Lemma countdown_ticks (h : nat) (k : nat) :
  forall (n : nat) (w : World),
    Running h (Z.of_nat n) w -> rendererAlive w -> (1 <= n)%nat ->
    ticks (output (run (firings h k)) w) = countdownFrom (Z.of_nat n) (Nat.min k n) /\
    count isInstall (output (run (firings h k)) w) = (if (n <=? k)%nat then 1 else 0)%nat /\
    count isCountdownStart (output (run (firings h k)) w) = 0%nat.
Proof.
  induction k as [|k IH]; intros n w Hrun Halive Hn.
  - cbn. destruct n; [lia|]. auto.
  - unfold firings in *. cbn [repeat]. rewrite output_run_cons.
    rewrite !ticks_app, !count_app.
    destruct (Nat.eq_dec n 1%nat) as [->|Hne].
    + destruct (tick_expires h _ w Hrun ltac:(lia)) as (Ho & Hgone & _).
      destruct (firings_gone h k _ Hgone) as [_ Hsilent].
      unfold firings in Hsilent. rewrite Hsilent, Ho.
      rewrite !ticks_app, !count_app, ticks_delivered_alive by assumption.
      rewrite !count_deliveredTo by reflexivity.
      change (Nat.min (S k) 1) with (S (Nat.min k 0)). rewrite Nat.min_0_r.
      destruct (squirrelPending w); cbn; auto.
    + destruct (tick_continues h _ w Hrun ltac:(lia)) as (Hrun' & Ho & Hwin).
      replace (Z.of_nat n - 1) with (Z.of_nat (n - 1)) in Hrun' by lia.
      assert (Halive' : rendererAlive (exec (step (TimerFires h)) w))
        by (unfold rendererAlive in *; congruence).
      destruct (IH (n - 1)%nat _ Hrun' Halive' ltac:(lia)) as (Ht & Hi & Hs).
      rewrite Ht, Hi, Hs, Ho, ticks_delivered_alive by assumption.
      rewrite !count_deliveredTo by reflexivity.
      destruct n as [|n]; [lia|]. cbn [Nat.min countdownFrom app].
      replace (S n - 1)%nat with n by lia.
      replace (Z.of_nat (S n) - 1) with (Z.of_nat n) by lia.
      repeat split; reflexivity.
Qed.

Lemma countdown_state (h : nat) (k : nat) :
  forall (n : nat) (w : World),
    Running h (Z.of_nat n) w -> (k < n)%nat ->
    Running h (Z.of_nat n - Z.of_nat k) (exec (run (firings h k)) w).
Proof.
  induction k as [|k IH]; intros n w Hrun Hk.
  - change (exec (run (firings h 0)) w) with w.
    replace (Z.of_nat n - Z.of_nat 0) with (Z.of_nat n) by lia. exact Hrun.
  - unfold firings in *. cbn [repeat]. rewrite exec_run_cons.
    destruct (tick_continues h _ w Hrun ltac:(lia)) as (Hrun' & _ & _).
    replace (Z.of_nat n - 1) with (Z.of_nat (n - 1)) in Hrun' by lia.
    specialize (IH (n - 1)%nat _ Hrun' ltac:(lia)).
    replace (Z.of_nat n - Z.of_nat (S k)) with (Z.of_nat (n - 1) - Z.of_nat k) by lia.
    exact IH.
Qed.

Lemma ticks_cleared (mk : nat -> Action) (o : option nat) :
  (forall h, ticks [mk h] = []) -> ticks (cleared mk o) = [].
Proof. intros H. destruct o; [apply H | reflexivity]. Qed.

Lemma count_cleared (p : Action -> bool) (mk : nat -> Action) (o : option nat) :
  (forall h, p (mk h) = false) -> count p (cleared mk o) = 0%nat.
Proof. intros H. destruct o; cbn; rewrite ?H; reflexivity. Qed.

Lemma start_output_read (w : World) :
  rendererAlive w ->
  ticks (output startAutoInstallCountdown w) = [AUTO_INSTALL_DELAY_SECONDS] /\
  count isInstall (output startAutoInstallCountdown w) = 0%nat /\
  count isCountdownStart (output startAutoInstallCountdown w) = 1%nat.
Proof.
  intros Halive. rewrite output_startAutoInstallCountdown.
  rewrite !ticks_app, !count_app, ticks_delivered_alive by assumption.
  rewrite ticks_cleared, !count_cleared, !count_deliveredTo by reflexivity.
  repeat split; reflexivity.
Qed.

(** C2: [startAutoInstallCountdown] sets the remaining seconds to the fixed
    delay, 5, and publishes it; every tick takes one second off and publishes
    the new value; the seconds published by a run are 5, 4, 3, 2, 1, 0; the
    install is called once, at the fifth tick, the one that publishes 0, and
    not again however often the handle fires afterwards. *)
Theorem countdown_descends_to_install (w : World) :
  rendererAlive w ->
  let h := nextHandle w in
  let w0 := exec startAutoInstallCountdown w in
  AUTO_INSTALL_DELAY_SECONDS = 5 /\
  autoInstallCountdown w0 = 5 /\
  ticks (output startAutoInstallCountdown w) = [5] /\
  count isInstall (output startAutoInstallCountdown w) = 0%nat /\
  (forall k : nat, (k < 5)%nat ->
     autoInstallCountdown (exec (run (firings h k)) w0) = 5 - Z.of_nat k) /\
  (forall k : nat,
     ticks (output (run (firings h k)) w0) = countdownFrom 5 (Nat.min k 5) /\
     count isInstall (output (run (firings h k)) w0) = (if (5 <=? k)%nat then 1 else 0)%nat) /\
  ticks (output (startAutoInstallCountdown;; run (firings h 5)) w) = [5; 4; 3; 2; 1; 0] /\
  count isInstall (output (startAutoInstallCountdown;; run (firings h 5)) w) = 1%nat /\
  count isInstall (output (step (TimerFires h)) (exec (run (firings h 4)) w0)) = 1%nat.
Proof.
  intros Halive h w0.
  pose proof (Running_start w) as Hrun. fold h w0 in Hrun.
  change AUTO_INSTALL_DELAY_SECONDS with (Z.of_nat 5) in Hrun.
  assert (Halive0 : rendererAlive w0).
  { unfold w0, rendererAlive. rewrite exec_startAutoInstallCountdown. exact Halive. }
  destruct (start_output_read w Halive) as (Hs1 & Hs2 & _).
  assert (Hall : forall k : nat,
     ticks (output (run (firings h k)) w0) = countdownFrom 5 (Nat.min k 5) /\
     count isInstall (output (run (firings h k)) w0) = (if (5 <=? k)%nat then 1 else 0)%nat).
  { intros k. destruct (countdown_ticks h k 5 w0 Hrun Halive0 ltac:(lia)) as (Ht & Hi & _).
    split; assumption. }
  split; [reflexivity|]. split; [apply Hrun|].
  split; [exact Hs1|]. split; [exact Hs2|].
  split.
  { intros k Hk. apply (countdown_state h k 5 w0 Hrun Hk). }
  split; [exact Hall|].
  rewrite output_bind, ticks_app, count_app. fold w0.
  destruct (Hall 5%nat) as [Ht Hi]. rewrite Ht, Hi, Hs1, Hs2.
  split; [reflexivity|]. split; [reflexivity|].
  pose proof (countdown_state h 4 5 w0 Hrun ltac:(lia)) as Hrun4.
  destruct (tick_expires h _ _ Hrun4 ltac:(lia)) as (Ho & _).
  rewrite Ho, !count_app, count_deliveredTo by reflexivity.
  destruct (squirrelPending _); reflexivity.
Qed.

Lemma countdown_descends_to_install_witness :
  let w := exec (step (IpcSetMainWindow {| isDestroyed := false |})) (initial "linux") in
  ticks (output (startAutoInstallCountdown;; run (firings (nextHandle w) 5)) w)
    = [5; 4; 3; 2; 1; 0] /\
  count isInstall (output (startAutoInstallCountdown;; run (firings (nextHandle w) 5)) w)
    = 1%nat.
Proof.
  intros w.
  pose proof (countdown_descends_to_install w eq_refl) as H.
  split; apply H.
Defined.

(** ** The staging wait *)

Lemma exec_callAll_app (ls1 ls2 : list Listener) (w : World) :
  exec (callAll (ls1 ++ ls2)) w = exec (callAll ls2) (exec (callAll ls1) w).
Proof.
  revert w. induction ls1 as [|l ls1 IH]; intros w; [reflexivity|].
  cbn [app]. rewrite !exec_callAll_cons. apply IH.
Qed.

Lemma output_callAll_app (ls1 ls2 : list Listener) (w : World) :
  output (callAll (ls1 ++ ls2)) w =
  output (callAll ls1) w ++ output (callAll ls2) (exec (callAll ls1) w).
Proof.
  revert w. induction ls1 as [|l ls1 IH]; intros w; [reflexivity|].
  cbn [app]. rewrite !output_callAll_cons, !exec_callAll_cons, IH.
  rewrite app_assoc. reflexivity.
Qed.

Lemma callAll_noOnReady (ls : list Listener) (w : World) :
  noOnReady ls = true ->
  exec (callAll ls) w = marked ls w /\ output (callAll ls) w = [].
Proof.
  revert w. induction ls as [|l ls IH]; intros w Hno; [destruct w; split; reflexivity|].
  cbn [noOnReady forallb] in Hno. destruct l; [|discriminate].
  cbn [andb] in Hno. rewrite exec_callAll_cons, output_callAll_cons.
  destruct (IH (exec (callListener MarkSquirrelReady) w) Hno) as [He Ho].
  rewrite He, Ho. split; [|reflexivity].
  destruct ls; reflexivity.
Qed.

Lemma noOnReady_dropListener (id : nat) (ls : list Listener) :
  noOnReady ls = true -> dropListener id ls = ls.
Proof.
  induction ls as [|l ls IH]; [reflexivity|].
  cbn [noOnReady forallb]. destruct l; [|discriminate].
  cbn [andb dropListener List.filter isOnReady negb]. intros H.
  f_equal. apply IH, H.
Qed.

Lemma dropListener_last (id : nat) (ls : list Listener) :
  noOnReady ls = true -> dropListener id (ls ++ [OnReady id]) = ls.
Proof.
  intros H. unfold dropListener. rewrite List.filter_app.
  fold (dropListener id ls). rewrite (noOnReady_dropListener id ls H).
  cbn [List.filter isOnReady]. rewrite Nat.eqb_refl. apply app_nil_r.
Qed.

Lemma noOnReady_step (e : Event) (w : World) :
  startsWait e = false -> noOnReady (listeners w) = true ->
  noOnReady (listeners (exec (step e) w)) = true.
Proof.
  intros He Hno. destruct e; try discriminate He;
    try solve [crunch; rewrite ?noOnReady_dropListener by assumption; assumption].
  cbn [step]. unfold emitNativeUpdateDownloaded. autorewrite with upd.
  destruct (callAll_noOnReady (listeners w) w Hno) as [-> _].
  exact Hno.
Qed.

Lemma noOnReady_run (es : list Event) (w : World) :
  forallb (fun e => negb (startsWait e)) es = true ->
  noOnReady (listeners w) = true ->
  noOnReady (listeners (exec (run es) w)) = true.
Proof.
  intros Hes Hno.
  apply (run_invariant (fun w => noOnReady (listeners w) = true) (fun _ => True)
           (fun e => negb (startsWait e))); auto.
  intros e w' He Hw'. split; [|apply Forall_forall; auto].
  apply noOnReady_step; [|exact Hw']. apply negb_true_iff, He.
Qed.

(** With no [onReady] listener registered the native event does nothing
    that shows. *)
Lemma native_event_silent (w : World) :
  noOnReady (listeners w) = true -> output (step NativeUpdateDownloaded) w = [].
Proof.
  intros Hno. cbn [step]. unfold emitNativeUpdateDownloaded. autorewrite with upd.
  apply (callAll_noOnReady _ _ Hno).
Qed.

Lemma count_cons (p : Action -> bool) (a : Action) (o : list Action) :
  count p (a :: o) = ((if p a then 1 else 0) + count p o)%nat.
Proof. unfold count. cbn [List.filter]. destruct (p a); reflexivity. Qed.

(** A downloaded event on macOS, before Squirrel is ready, arms the wait. *)
Lemma downloaded_arms_wait (w : World) (event : UpdateInfo) :
  isDarwin w = true -> autoDownload w = true -> nativeSquirrelReady w = false ->
  exec (step (UpdateDownloaded event)) w =
    exec waitForSquirrelThenAutoInstall
      (set_status (UpdateStatus.spread (status w) (withInfo Downloaded event)) w) /\
  output (step (UpdateDownloaded event)) w =
    deliveredTo (mainWindow w)
      (Send "update:status-changed"
         (StatusPayload (UpdateStatus.spread (status w) (withInfo Downloaded event)))) ++
    [Emit "update-downloaded"; Once (nextHandle w);
     SetTimeout (S (nextHandle w)) SQUIRREL_STAGING_TIMEOUT_MS].
Proof.
  intros Hd Ha Hr. cbn [step]. unfold onUpdateDownloaded. autorewrite with upd. fields.
  unfold isDarwin in *. fields. rewrite Ha, Hd, Hr. cbn [andb negb].
  autorewrite with upd. fields. split; reflexivity.
Qed.

Lemma Armed_passive_step (L F : nat) (d : Z) (e : Event) (w : World) :
  passive e = true -> Armed L F d w -> Armed L F d (exec (step e) w).
Proof.
  intros He (Hls & Hf & Ht & Hc & Ha & Hlt).
  destruct e; try discriminate He; crunch; repeat split; assumption.
Qed.

Lemma Armed_passive_run (L F : nat) (d : Z) (es : list Event) (w : World) :
  forallb passive es = true -> Armed L F d w -> Armed L F d (exec (run es) w).
Proof.
  intros Hes Hw.
  apply (run_invariant (Armed L F d) (fun _ => True) passive); auto.
  intros e w' He Hw'. split; [|apply Forall_forall; auto].
  apply Armed_passive_step; assumption.
Qed.

Lemma armed_after_download (w : World) (event : UpdateInfo) :
  isDarwin w = true -> autoDownload w = true -> nativeSquirrelReady w = false ->
  noOnReady (listeners w) = true -> autoInstallTimer w = None ->
  Armed (nextHandle w) (S (nextHandle w)) (now w + SQUIRREL_STAGING_TIMEOUT_MS)
    (exec (step (UpdateDownloaded event)) w) /\
  count isCountdownStart (output (step (UpdateDownloaded event)) w) = 0%nat.
Proof.
  intros Hd Ha Hr Hno Hnone.
  destruct (downloaded_arms_wait w event Hd Ha Hr) as [-> ->].
  rewrite exec_waitForSquirrelThenAutoInstall. unfold Armed. fields.
  rewrite count_app, count_deliveredTo by reflexivity.
  repeat split; try reflexivity; try assumption; try lia.
  - exists (listeners w). split; [reflexivity | assumption].
  - apply lookup_insert_eq.
Qed.

(** The native signal wins the race: the fallback timeout is cleared and the
    countdown starts in the same step. *)
Lemma armed_native_first (L F : nat) (d : Z) (w : World) :
  Armed L F d w ->
  output (step NativeUpdateDownloaded) w =
    [ClearTimeout F] ++ deliveredTo (mainWindow w) countdownStarted ++
    [SetInterval (nextHandle w) 1000] /\
  Running (nextHandle w) 5 (exec (step NativeUpdateDownloaded) w) /\
  Gone F (exec (step NativeUpdateDownloaded) w) /\
  noOnReady (listeners (exec (step NativeUpdateDownloaded) w)) = true.
Proof.
  intros ((ls & Hls & Hno) & Hf & Ht & Hc & Ha & Hlt).
  cbn [step]. unfold emitNativeUpdateDownloaded. autorewrite with upd.
  rewrite Hls, exec_callAll_app, output_callAll_app.
  destruct (callAll_noOnReady ls w Hno) as [-> ->].
  cbn [callAll]. unfold marked. autorewrite with upd. fields.
  autorewrite with upd. fields. rewrite Hc. cbn zeta. autorewrite with upd. fields.
  rewrite Hf, Ha, Hls, dropListener_last by assumption. cbn [cleared withoutTimer app].
  split; [reflexivity|]. split; [|split; [|exact Hno]].
  - unfold Running. fields. split; [lia|]. split; [|split; reflexivity].
    eexists. apply lookup_insert_eq.
  - split; fields; [lia|]. rewrite lookup_insert_ne by lia. apply lookup_delete_eq.
Qed.

(** The fallback timeout wins the race: the listener is removed and the
    countdown starts in the same step, at the due time of the timeout. *)
Lemma armed_fallback_first (L F : nat) (d : Z) (w : World) :
  Armed L F d w ->
  output (step (TimerFires F)) w =
    [RemoveListener L] ++ deliveredTo (mainWindow w) countdownStarted ++
    [SetInterval (nextHandle w) 1000] /\
  now (exec (step (TimerFires F)) w) = Z.max (now w) d /\
  Running (nextHandle w) 5 (exec (step (TimerFires F)) w) /\
  noOnReady (listeners (exec (step (TimerFires F)) w)) = true /\
  Gone F (exec (step (TimerFires F)) w).
Proof.
  intros ((ls & Hls & Hno) & Hf & Ht & Hc & Ha & Hlt).
  cbn [step]. rewrite exec_fireTimer, output_fireTimer, Ht.
  unfold fallbackTimer, dequeued. fields.
  autorewrite with upd. fields. unfold fallbackEntered.
  rewrite Hc, Ha. autorewrite with upd. fields.
  rewrite Ha, Hls, dropListener_last by assumption. cbn [cleared withoutTimer app].
  split; [reflexivity|]. split; [reflexivity|]. split; [|split; [exact Hno|]].
  - unfold Running. fields. split; [lia|]. split; [|split; reflexivity].
    eexists. apply lookup_insert_eq.
  - split; fields; [lia|]. rewrite lookup_insert_ne by lia. apply lookup_delete_eq.
Qed.

Lemma count_start_countdown (a : Action) (win : option BrowserWindow) (h : nat) :
  isCountdownStart a = false ->
  count isCountdownStart ([a] ++ deliveredTo win countdownStarted ++ [SetInterval h 1000])
  = 1%nat.
Proof.
  intros Ha. rewrite !count_app, count_deliveredTo by reflexivity.
  unfold count. cbn [List.filter]. rewrite Ha. reflexivity.
Qed.

(** X17: on macOS, with auto-download on and Squirrel not yet ready, a
    downloaded event that finds no earlier wait outstanding (no [onReady]
    listener registered, no countdown running) arms one staging wait and
    starts no countdown.  Let events that leave the wait alone go by.  If the
    native signal then comes first, that step clears the fallback timeout
    and starts the countdown, once; the timeout never fires whatever happens
    later, and the listener, registered with [once], is gone: a further
    native signal in that cycle has no visible effect.  If the fallback
    timeout fires first, that step starts the countdown, once, at the due
    time of the timeout (the staging bound after the download); the timeout
    never fires again, and a native signal coming at any later point of the
    cycle has no visible effect. *)
Theorem staging_wait_settles_once (w : World) (event : UpdateInfo) (es : list Event) :
  isDarwin w = true -> autoDownload w = true -> nativeSquirrelReady w = false ->
  noOnReady (listeners w) = true -> autoInstallTimer w = None ->
  forallb passive es = true ->
  let F := S (nextHandle w) in
  let bound := now w + SQUIRREL_STAGING_TIMEOUT_MS in
  let w1 := exec (run (UpdateDownloaded event :: es)) w in
  (timers w1 !! F = Some (fallbackTimer bound (nextHandle w)) /\
   count isCountdownStart (output (step (UpdateDownloaded event)) w) = 0%nat) /\
  (let w2 := exec (step NativeUpdateDownloaded) w1 in
   let o := output (step NativeUpdateDownloaded) w1 in
   In (ClearTimeout F) o /\
   count isCountdownStart o = 1%nat /\
   Running (nextHandle w1) 5 w2 /\
   timers w2 !! F = None /\
   (forall later : list Event,
      exec (step (TimerFires F)) (exec (run later) w2) = exec (run later) w2 /\
      output (step (TimerFires F)) (exec (run later) w2) = []) /\
   (forall later : list Event,
      forallb (fun e => negb (startsWait e)) later = true ->
      output (step NativeUpdateDownloaded) (exec (run later) w2) = [])) /\
  (let w2 := exec (step (TimerFires F)) w1 in
   let o := output (step (TimerFires F)) w1 in
   count isCountdownStart o = 1%nat /\
   now w2 = Z.max (now w1) bound /\
   Running (nextHandle w1) 5 w2 /\
   (forall later : list Event,
      output (step (TimerFires F)) (exec (run later) w2) = []) /\
   (forall later : list Event,
      forallb (fun e => negb (startsWait e)) later = true ->
      output (step NativeUpdateDownloaded) (exec (run later) w2) = [])).
Proof.
  intros Hd Ha Hr Hno Hnone Hes F bound w1.
  destruct (armed_after_download w event Hd Ha Hr Hno Hnone) as [Harm Hzero].
  assert (Harm1 : Armed (nextHandle w) F bound w1).
  { unfold w1. rewrite exec_run_cons. apply Armed_passive_run; assumption. }
  split.
  { split; [apply Harm1 | exact Hzero]. }
  split.
  - destruct (armed_native_first _ _ _ _ Harm1) as (Ho & Hrun & Hgone & Hno2).
    cbn zeta. rewrite Ho.
    split; [left; reflexivity|].
    split; [apply count_start_countdown; reflexivity|].
    split; [exact Hrun|].
    split; [apply Hgone|].
    split; [intros later; apply Gone_never_fires, Hgone|].
    intros later Hlater. apply native_event_silent, noOnReady_run; assumption.
  - destruct (armed_fallback_first _ _ _ _ Harm1) as (Ho & Hnow & Hrun & Hno2 & Hgone).
    cbn zeta. rewrite Ho.
    split; [apply count_start_countdown; reflexivity|].
    split; [exact Hnow|].
    split; [exact Hrun|].
    split; [intros later; apply Gone_never_fires, Hgone|].
    intros later Hlater. apply native_event_silent, noOnReady_run; assumption.
Qed.

Lemma staging_wait_settles_once_witness :
  let w := exec (step (IpcSetAutoDownload true)) (initial "darwin") in
  let event := {| UpdateStatus.version := "1.0.1" |} in
  let w1 := exec (run [UpdateDownloaded event; Elapse 60000]) w in
  count isCountdownStart (output (step NativeUpdateDownloaded) w1) = 1%nat /\
  (forall later : list Event,
     output (step (TimerFires 1))
       (exec (run later) (exec (step NativeUpdateDownloaded) w1)) = []) /\
  (forall later : list Event,
     forallb (fun e => negb (startsWait e)) later = true ->
     output (step NativeUpdateDownloaded)
       (exec (run later) (exec (step NativeUpdateDownloaded) w1)) = []) /\
  count isCountdownStart (output (step (TimerFires 1)) w1) = 1%nat /\
  now (exec (step (TimerFires 1)) w1) = 360000 /\
  (forall later : list Event,
     forallb (fun e => negb (startsWait e)) later = true ->
     output (step NativeUpdateDownloaded)
       (exec (run later) (exec (step (TimerFires 1)) w1)) = []).
Proof.
  intros w event w1.
  pose proof (staging_wait_settles_once w event [Elapse 60000]
                eq_refl eq_refl eq_refl eq_refl eq_refl eq_refl)
    as (_ & (_ & Hn1 & _ & _ & Hn2 & Hn3) & (Hf1 & Hnow & _ & _ & Hf2)).
  split; [exact Hn1|]. split; [intros later; apply Hn2|]. split; [exact Hn3|].
  split; [exact Hf1|]. split; [exact Hnow|exact Hf2].
Defined.

(** C1 fails on the code after a cancelled wait.  [cancelAutoInstall]
    clears the fallback timeout of the wait but leaves its [onReady]
    listener registered, and the next wait sets [autoInstallCancelled] back
    to [false].  After a downloaded event, a cancellation and a second
    downloaded event, the listener of the first wait is still registered
    beside that of the second, and one fallback timeout is pending.  The
    native signal stays away; the fallback fires at its bound, removes the
    listener of its own wait and starts the countdown.  The native signal
    half a second later runs the listener of the cancelled wait, which
    starts the countdown a second time.  When the signal comes only after
    the first countdown has run out, the install is called twice. *)
Theorem cancelled_wait_leaves_listener :
  let w := exec (run cancelledThenDownloaded) macReady in
  let w3 := exec (step (TimerFires 3)) w in
  listeners (exec (run [UpdateDownloaded release; IpcCancelAutoInstall]) macReady)
  = [MarkSquirrelReady; OnReady 0] /\
  listeners w = [MarkSquirrelReady; OnReady 0; OnReady 2] /\
  autoInstallCancelled w = false /\
  pending isFallback w = [3%nat] /\
  timers w !! 3%nat = Some (fallbackTimer 370000 2) /\
  count isCountdownStart (output (run cancelledThenDownloaded) macReady) = 0%nat /\
  count isCountdownStart (output (step (TimerFires 3)) w) = 1%nat /\
  now w3 = 370000 /\
  listeners w3 = [MarkSquirrelReady; OnReady 0] /\
  count isCountdownStart
    (output (step NativeUpdateDownloaded) (exec (step (Elapse 500)) w3)) = 1%nat /\
  punctualRun macReady signalAMomentLater = true /\
  count isCountdownStart (output (run signalAMomentLater) macReady) = 2%nat /\
  ticks (output (run signalAMomentLater) macReady) = [5; 5; 4; 3; 2; 1; 0] /\
  punctualRun macReady signalAfterInstall = true /\
  count isCountdownStart (output (run signalAfterInstall) macReady) = 2%nat /\
  count isInstall (output (run signalAfterInstall) macReady) = 2%nat.
Proof. vm_compute. repeat split; reflexivity. Qed.

(** ** Invariants of reachable worlds *)

(** Take apart a lookup in a map built by inserts and deletes. *)
Ltac split_lookups :=
  repeat match goal with
         | H : delete _ _ !! _ = Some _ |- _ => apply lookup_delete_Some in H as [? H]
         | H : <[_:=_]> _ !! _ = Some _ |- _ =>
             apply lookup_insert_Some in H as [[? ?]|[? H]]
         end.

Ltac tick_owned :=
  unfold TickOwned, withoutTimer in *; fields;
  intros ? ? ? ?;
  repeat match goal with
         | H : context [match ?x with _ => _ end] |- _ => destruct x eqn:?
         end;
  split_lookups; subst; fields; try discriminate; try reflexivity; try congruence;
  try match goal with
      | Hw : forall h t, timers ?w !! h = Some t -> _, H : timers ?w !! _ = Some _ |- _ =>
          pose proof (Hw _ _ H ltac:(assumption)); congruence
      end.

Lemma TickOwned_callAll (ls : list Listener) (w : World) :
  TickOwned w -> TickOwned (exec (callAll ls) w).
Proof.
  revert w. induction ls as [|l ls IH]; intros w Hw; [exact Hw|].
  rewrite exec_callAll_cons. apply IH.
  destruct l; crunch; tick_owned.
Qed.

Lemma TickOwned_step (e : Event) (w : World) :
  TickOwned w -> TickOwned (exec (step e) w).
Proof.
  intros Hw. destruct e; try solve [crunch; tick_owned].
  cbn [step]. unfold emitNativeUpdateDownloaded. autorewrite with upd.
  apply TickOwned_callAll, Hw.
Qed.

Ltac timer_fresh :=
  unfold TimerFresh in *; fields; intros ? ?;
  try discriminate; simplify_eq; try lia;
  try match goal with
      | Hw : forall h, autoInstallTimer ?w = Some h -> _, H : autoInstallTimer ?w = Some _ |- _ =>
          pose proof (Hw _ H); lia
      end.

Lemma TimerFresh_callAll (ls : list Listener) (w : World) :
  TimerFresh w -> TimerFresh (exec (callAll ls) w).
Proof.
  revert w. induction ls as [|l ls IH]; intros w Hw; [exact Hw|].
  rewrite exec_callAll_cons. apply IH.
  destruct l; crunch; timer_fresh.
Qed.

Lemma TimerFresh_step (e : Event) (w : World) :
  TimerFresh w -> TimerFresh (exec (step e) w).
Proof.
  intros Hw. destruct e; try solve [crunch; timer_fresh].
  cbn [step]. unfold emitNativeUpdateDownloaded. autorewrite with upd.
  apply TimerFresh_callAll, Hw.
Qed.

Lemma Reachable_invariant (w : World) :
  Reachable w -> TickOwned w /\ TimerFresh w.
Proof.
  intros (pf & es & ->).
  apply (run_invariant (fun w => TickOwned w /\ TimerFresh w) (fun _ => True)
           (fun _ => true)).
  - intros e w' _ [H1 H2]. split; [|apply Forall_forall; auto].
    split; [apply TickOwned_step, H1 | apply TimerFresh_step, H2].
  - clear. induction es; auto.
  - split.
    + intros h t Hl. cbn in Hl. rewrite lookup_empty in Hl. discriminate.
    + intros h Hh. discriminate.
Qed.

(** ** After a cancellation *)

Lemma Forall_deliveredTo (R : Action -> Prop) (win : option BrowserWindow) (a : Action) :
  R a -> Forall R (deliveredTo win a).
Proof. intros H. destruct win as [[[]]|]; cbn; auto. Qed.

Lemma Forall_cleared (R : Action -> Prop) (mk : nat -> Action) (o : option nat) :
  (forall h, R (mk h)) -> Forall R (cleared mk o).
Proof. intros H. destruct o; cbn; auto. Qed.

Ltac quiet_output :=
  repeat first [ apply List.Forall_nil
               | apply List.Forall_cons; [reflexivity|]
               | apply Forall_app; split
               | apply Forall_deliveredTo; reflexivity
               | apply Forall_cleared; intros; reflexivity ].

Ltac quiet_world :=
  unfold Quiet; fields;
  repeat split; try assumption; try congruence; try tick_owned.

Ltac quiet :=
  try congruence;
  try match goal with
      | Ho : TickOwned ?w, H : timers ?w !! _ = Some ?t, Hc : callback ?t = AutoInstallTick |- _ =>
          pose proof (Ho _ _ H Hc); congruence
      end;
  (split; [quiet_world | quiet_output]).

Lemma Quiet_callAll (ls : list Listener) (w : World) :
  Quiet w ->
  Quiet (exec (callAll ls) w) /\ Forall (fun a => quietAction a = true) (output (callAll ls) w).
Proof.
  revert w. induction ls as [|l ls IH]; intros w Hw; [split; [exact Hw | constructor]|].
  rewrite exec_callAll_cons, output_callAll_cons.
  assert (H1 : Quiet (exec (callListener l) w) /\
               Forall (fun a => quietAction a = true) (output (callListener l) w)).
  { destruct Hw as (Hc & Hn & Ho). destruct l; crunch; quiet. }
  destruct H1 as [H1 H2]. destruct (IH _ H1) as [H3 H4].
  split; [exact H3 | apply Forall_app; split; assumption].
Qed.

Lemma Quiet_step (e : Event) (w : World) :
  beginsCycle e = false -> Quiet w ->
  Quiet (exec (step e) w) /\ Forall (fun a => quietAction a = true) (output (step e) w).
Proof.
  intros He Hw. destruct e; try discriminate He;
    try solve [destruct Hw as (Hc & Hn & Ho); crunch; quiet].
  cbn [step]. unfold emitNativeUpdateDownloaded. autorewrite with upd.
  apply Quiet_callAll, Hw.
Qed.

Lemma Quiet_run (es : list Event) (w : World) :
  forallb (fun e => negb (beginsCycle e)) es = true -> Quiet w ->
  Forall (fun a => quietAction a = true) (output (run es) w).
Proof.
  intros Hes Hw.
  apply (run_invariant Quiet (fun a => quietAction a = true)
           (fun e => negb (beginsCycle e))); auto.
  intros e w' He Hw'. apply Quiet_step; [|exact Hw']. apply negb_true_iff, He.
Qed.

Lemma quiet_output_read (o : list Action) :
  Forall (fun a => quietAction a = true) o ->
  ticks o = [] /\ count isCountdownStart o = 0%nat /\ count isInstall o = 0%nat.
Proof.
  induction 1 as [|a o Ha _ (IH1 & IH2 & IH3)]; [repeat split; reflexivity|].
  rewrite !count_cons, IH2, IH3.
  unfold quietAction in Ha.
  apply andb_prop in Ha as [Ha Hi]. apply andb_prop in Ha as [Ht Hs].
  apply negb_true_iff in Ht, Hs, Hi. rewrite Hs, Hi.
  repeat split; try reflexivity.
  destruct a as [ch [s|[n [c|]]]| | | | | | | | |]; cbn [ticks]; try exact IH1.
  discriminate Ht.
Qed.

Lemma Quiet_after_cancel (w : World) :
  TickOwned w -> Quiet (exec cancelAutoInstall w).
Proof.
  intros Ho. rewrite exec_cancelAutoInstall. unfold Quiet. fields.
  repeat split. tick_owned.
Qed.

Lemma In_app_cleared (mk : nat -> Action) (h : nat) (a b : list Action) :
  In (mk h) (a ++ cleared mk (Some h) ++ b).
Proof. apply in_or_app. right. left. reflexivity. Qed.

(** C3: [cancelAutoInstall], called in a reachable world while a countdown
    runs on the interval [h], with a live renderer window, clears that
    interval and publishes exactly one [{seconds: -1, cancelled: true}], no
    tick and no install.  From then on the interval [h] never fires again,
    whatever happens; and until a new downloaded event begins another cycle
    (or the user installs by hand) no tick is published, no countdown is
    started and no install is called. *)
Theorem cancel_stops_countdown (w : World) (h : nat) :
  Reachable w -> autoInstallTimer w = Some h -> rendererAlive w ->
  let o := output (step IpcCancelAutoInstall) w in
  let w1 := exec (step IpcCancelAutoInstall) w in
  (count isCancelEvent o = 1%nat /\ In (ClearInterval h) o /\
   ticks o = [] /\ count isInstall o = 0%nat /\ count isCountdownStart o = 0%nat) /\
  (autoInstallTimer w1 = None /\ timers w1 !! h = None) /\
  (forall later : list Event,
     exec (step (TimerFires h)) (exec (run later) w1) = exec (run later) w1 /\
     output (step (TimerFires h)) (exec (run later) w1) = []) /\
  (forall later : list Event,
     forallb (fun e => negb (beginsCycle e)) later = true ->
     ticks (output (run later) w1) = [] /\
     count isCountdownStart (output (run later) w1) = 0%nat /\
     count isInstall (output (run later) w1) = 0%nat).
Proof.
  intros Hreach Hh Halive o w1.
  destruct (Reachable_invariant w Hreach) as [Howned Hfresh].
  assert (Hgone : Gone h w1).
  { unfold w1. cbn [step]. rewrite exec_cancelAutoInstall, Hh.
    split; fields; [apply Hfresh, Hh | apply lookup_delete_eq]. }
  split.
  { unfold o. cbn [step]. rewrite output_cancelAutoInstall, Hh.
    unfold rendererAlive in Halive. rewrite Halive.
    split; [|split; [apply In_app_cleared|]].
    - rewrite !count_app, !count_cleared by reflexivity. reflexivity.
    - rewrite !ticks_app, !count_app, ticks_cleared, !count_cleared by reflexivity.
      repeat split; reflexivity. }
  split.
  { split; [|apply Hgone]. unfold w1. cbn [step]. rewrite exec_cancelAutoInstall.
    reflexivity. }
  split.
  { intros later. apply Gone_never_fires, Hgone. }
  intros later Hlater. apply quiet_output_read, Quiet_run; [exact Hlater|].
  apply Quiet_after_cancel, Howned.
Qed.

Lemma cancel_stops_countdown_witness :
  let event := {| UpdateStatus.version := "1.0.1" |} in
  let w := exec (run [IpcSetMainWindow {| isDestroyed := false |};
                      IpcSetAutoDownload true; UpdateDownloaded event;
                      TimerFires 0; TimerFires 0]) (initial "linux") in
  let w1 := exec (step IpcCancelAutoInstall) w in
  count isCancelEvent (output (step IpcCancelAutoInstall) w) = 1%nat /\
  (forall later : list Event,
     output (step (TimerFires 0)) (exec (run later) w1) = []) /\
  (forall later : list Event,
     forallb (fun e => negb (beginsCycle e)) later = true ->
     ticks (output (run later) w1) = [] /\
     count isCountdownStart (output (run later) w1) = 0%nat /\
     count isInstall (output (run later) w1) = 0%nat).
Proof.
  intros event w w1.
  assert (Hreach : Reachable w) by (eexists _, _; reflexivity).
  pose proof (cancel_stops_countdown w 0 Hreach eq_refl eq_refl)
    as ((Hone & _) & _ & Hnever & Hquiet).
  split; [exact Hone|]. split; [intros later; apply Hnever | exact Hquiet].
Defined.

(** ** Two downloaded events in one staging wait *)

(** C4 fails on the code.  A second downloaded event during a staging wait
    arms a second fallback timeout and a second [onReady] listener without
    clearing the first: nothing is cleared, two fallback timeouts are pending
    at once and the field holds only the second.  Left to themselves, each
    timeout starts its own countdown and the install is called twice. *)
Theorem second_wait_leaks_first_fallback :
  let w2 := exec (run twoDownloads) macReady in
  count isClearTimeout (output (run twoDownloads) macReady) = 0%nat /\
  timers w2 !! 1%nat = Some (fallbackTimer 360000 0) /\
  timers w2 !! 3%nat = Some (fallbackTimer 370000 2) /\
  length (pending isFallback w2) = 2%nat /\
  pending isTick w2 = [] /\
  squirrelFallbackTimer w2 = Some 3%nat /\
  punctualRun macReady twoDownloadsToTheEnd = true /\
  count isCountdownStart (output (run twoDownloadsToTheEnd) macReady) = 2%nat /\
  count isInstall (output (run twoDownloadsToTheEnd) macReady) = 2%nat /\
  nativeSquirrelReady (exec (run twoDownloadsToTheEnd) macReady) = false /\
  now (exec (run twoDownloadsToTheEnd) macReady) = 375000.
Proof. vm_compute. repeat split; reflexivity. Qed.

(** ** The check coordinator *)

Lemma errorText_value (v : Value) :
  errorText (ThrownValue v) =
  Returns match message v with
          | Some m => if String.eqb m "" then asString v else m
          | None => asString v
          end.
Proof. unfold errorText. cbn. destruct (message v); reflexivity. Qed.

Lemma check_rejected_with_value (v : Value) (text : string) (w : World) :
  errorText (ThrownValue v) = Returns text ->
  let m := checkForUpdates (Rejects (ThrownValue v)) in
  result m w = Throws (ThrownValue v) /\
  exec m w = set_status (UpdateStatus.spread (status w) (withError Error text)) w /\
  output m w =
    deliveredTo (mainWindow w)
      (Send "update:status-changed"
         (StatusPayload (UpdateStatus.spread (status w) (withError Error text)))).
Proof.
  intros Ht. cbn zeta. unfold checkForUpdates. rewrite Ht.
  autorewrite with upd. fields. repeat split; reflexivity.
Qed.

Lemma check_resolved (updateInfo : option UpdateInfo) (w : World) :
  let m := checkForUpdates (Resolves updateInfo) in
  result m w = Returns updateInfo /\
  status (exec m w) =
    if settled (tagOf w) then status w
    else UpdateStatus.spread (status w) (partial NotAvailable).
Proof.
  cbn zeta. unfold checkForUpdates, settled, tagOf. autorewrite with upd. fields.
  destruct (UpdateStatus.Tag_eqb (UpdateStatus.status (status w)) Checking
            || UpdateStatus.Tag_eqb (UpdateStatus.status (status w)) Idle);
    cbn [negb]; autorewrite with upd; fields; split; reflexivity.
Qed.




(** C7 fails on the code when the external check is rejected with [null] or
    [undefined].  Reading [message] of such a value throws a [TypeError]
    inside the [catch] block, before [updateStatus] is called and before
    [throw error] is reached: the world is left as it was, nothing is
    published, and the caller receives the [TypeError], not the failure of
    the check.  From the constructor's state the status stays [idle].  For
    every other thrown value the status becomes [error] with the message of
    the failure ([String(error)] when the failure has no message or an empty
    one), the status is published and the same value is thrown. *)
Theorem null_rejection_is_not_rethrown (w : World) :
  (let m := checkForUpdates (Rejects ThrownNull) in
   exec m w = w /\ output m w = [] /\
   result m w = Throws (cannotReadMessage "null") /\
   result m w <> Throws ThrownNull) /\
  (let m := checkForUpdates (Rejects ThrownUndefined) in
   exec m w = w /\ output m w = [] /\
   result m w = Throws (cannotReadMessage "undefined") /\
   result m w <> Throws ThrownUndefined) /\
  tagOf (exec (checkForUpdates (Rejects ThrownNull)) (initial "darwin")) = Idle /\
  toString (cannotReadMessage "null")
  = "TypeError: Cannot read properties of null (reading 'message')" /\
  (forall v : Value,
     let m := checkForUpdates (Rejects (ThrownValue v)) in
     result m w = Throws (ThrownValue v) /\
     tagOf (exec m w) = Error /\
     UpdateStatus.error (status (exec m w))
     = Some match message v with
            | Some msg => if String.eqb msg "" then asString v else msg
            | None => asString v
            end /\
     output m w =
       deliveredTo (mainWindow w)
         (Send "update:status-changed" (StatusPayload (status (exec m w))))) /\
  (forall (c : ascii) (msg text : string),
     UpdateStatus.error
       (status (exec (checkForUpdates
                        (Rejects (ThrownValue {| message := Some (String c msg);
                                                 asString := text |}))) w))
     = Some (String c msg)).
Proof.
  split; [|split; [|split; [|split; [|split]]]].
  - cbn zeta. unfold checkForUpdates. cbn [errorText readMessage].
    autorewrite with upd. repeat split; try reflexivity. discriminate.
  - cbn zeta. unfold checkForUpdates. cbn [errorText readMessage].
    autorewrite with upd. repeat split; try reflexivity. discriminate.
  - reflexivity.
  - reflexivity.
  - intros v. cbn zeta.
    destruct (check_rejected_with_value v _ w (errorText_value v)) as (Hr & He & Ho).
    rewrite Hr, He, Ho. unfold tagOf. fields. repeat split; reflexivity.
  - intros c msg text.
    destruct (check_rejected_with_value _ _ w (errorText_value
                {| message := Some (String c msg); asString := text |})) as (_ & He & _).
    rewrite He. fields. reflexivity.
Qed.

(** C8 fails on the code for the same rejections.  A check that begins
    (the status turns [checking]) and is rejected with [null] or [undefined]
    ends with the status still [checking]; rejected so from the
    constructor's state it ends with the status still [idle].  Every other
    outcome ends the check with a status that is neither: no result and a
    thrown value give [error]; a result that finds the status still
    [checking] or [idle] forces [not-available], and a result that finds any
    other status leaves it. *)
Theorem null_rejection_leaves_checking :
  tagOf (exec (run rejectedWithNull) (initial "darwin")) = Checking /\
  tagOf (exec (run rejectedWithUndefined) (initial "darwin")) = Checking /\
  tagOf (exec (run [CheckSettles (Rejects ThrownNull)]) (initial "darwin")) = Idle /\
  (forall w : World,
     status (exec (checkForUpdates (Rejects ThrownNull)) w) = status w /\
     status (exec (checkForUpdates (Rejects ThrownUndefined)) w) = status w) /\
  (forall w : World, tagOf (exec (checkForUpdates ResolvesNull) w) = Error) /\
  (forall (w : World) (v : Value),
     tagOf (exec (checkForUpdates (Rejects (ThrownValue v))) w) = Error) /\
  (forall (w : World) (updateInfo : option UpdateInfo),
     let m := checkForUpdates (Resolves updateInfo) in
     settled (tagOf (exec m w)) = true /\
     tagOf (exec m w) = (if settled (tagOf w) then tagOf w else NotAvailable) /\
     (if settled (tagOf w) then status (exec m w) = status w else True) /\
     result m w = Returns updateInfo).
Proof.
  split; [reflexivity|]. split; [reflexivity|]. split; [reflexivity|].
  split; [|split; [|split]].
  - intros w. unfold checkForUpdates. cbn [errorText readMessage].
    autorewrite with upd. split; reflexivity.
  - intros w. unfold checkForUpdates, tagOf. autorewrite with upd. fields. reflexivity.
  - intros w v.
    destruct (check_rejected_with_value v _ w (errorText_value v)) as (_ & He & _).
    rewrite He. unfold tagOf. fields. reflexivity.
  - intros w updateInfo. cbn zeta.
    destruct (check_resolved updateInfo w) as [Hr Hs]. unfold tagOf in *.
    rewrite Hr, Hs.
    destruct (settled (UpdateStatus.status (status w))) eqn:Hset;
      repeat split; try reflexivity; assumption.
Qed.

(** ** The status tracker *)

Ltac carries :=
  unfold Carries, UpdateStatus.spread, partial, withInfo, withProgress, withError in *;
  cbn [UpdateStatus.status UpdateStatus.info UpdateStatus.progress UpdateStatus.error
       UpdateStatus.status' UpdateStatus.info' UpdateStatus.progress' UpdateStatus.error'
       UpdateStatus.over] in *;
  try assumption; eauto.

Lemma Carries_callAll (ls : list Listener) (w : World) :
  status (exec (callAll ls) w) = status w.
Proof.
  revert w. induction ls as [|l ls IH]; intros w; [reflexivity|].
  rewrite exec_callAll_cons, IH. destruct l; crunch; reflexivity.
Qed.

Lemma Carries_step (e : Event) (w : World) :
  Carries (status w) -> Carries (status (exec (step e) w)).
Proof.
  intros Hw. destruct e; try solve [crunch; carries].
  cbn [step]. unfold emitNativeUpdateDownloaded. autorewrite with upd.
  rewrite Carries_callAll. exact Hw.
Qed.

Lemma Carries_reachable (w : World) : Reachable w -> Carries (status w).
Proof.
  intros (pf & es & ->).
  apply (run_invariant (fun w => Carries (status w)) (fun _ => True) (fun _ => true)).
  - intros e w' _ Hw'. split; [apply Carries_step, Hw' | apply Forall_forall; auto].
  - clear. induction es; auto.
  - exact I.
Qed.

(** C9, as the spec words it, fails: after [available] and then
    [downloading] the status still holds the version info of [available],
    under the tag [downloading]. *)
Lemma stale_info_under_downloading :
  Reachable downloadInProgress /\
  tagOf downloadInProgress = Downloading /\
  UpdateStatus.info (status downloadInProgress) = Some release /\
  ~ ShapedByTag (status downloadInProgress).
Proof.
  split; [eexists _, _; reflexivity|].
  split; [reflexivity|]. split; [reflexivity|].
  intros (Hinfo & _). destruct Hinfo as [H|[H|H]]; [eexists; reflexivity | | |];
    discriminate H.
Qed.

(** C9 (amended): in every reachable world the status holds the payload of
    its tag: version info under [available] and [downloaded], a progress
    value under [downloading], an error message under [error].  A merge
    replaces the tag and the fields the partial update brings and keeps every
    other field, so the payload of an earlier status may stay under a later
    tag; every merge the updater performs, at any event, keeps the status
    holding the payload of its tag. *)
Theorem status_holds_payload_of_tag (w : World) :
  Reachable w ->
  (tagOf w = Available \/ tagOf w = Downloaded -> is_Some (UpdateStatus.info (status w))) /\
  (tagOf w = Downloading -> is_Some (UpdateStatus.progress (status w))) /\
  (tagOf w = Error -> is_Some (UpdateStatus.error (status w))) /\
  (forall p : UpdateStatus.Partial,
     let s := status w in
     let s' := status (exec (updateStatus p) w) in
     UpdateStatus.status s' = default (UpdateStatus.status s) (UpdateStatus.status' p) /\
     UpdateStatus.info s' = UpdateStatus.over (UpdateStatus.info' p) (UpdateStatus.info s) /\
     UpdateStatus.progress s' =
       UpdateStatus.over (UpdateStatus.progress' p) (UpdateStatus.progress s) /\
     UpdateStatus.error s' = UpdateStatus.over (UpdateStatus.error' p) (UpdateStatus.error s)) /\
  (forall e : Event, Carries (status (exec (step e) w))).
Proof.
  intros Hreach. pose proof (Carries_reachable w Hreach) as Hc.
  unfold tagOf, Carries in *.
  split; [|split; [|split; [|split]]].
  - intros [H|H]; rewrite H in Hc; exact Hc.
  - intros H. rewrite H in Hc. exact Hc.
  - intros H. rewrite H in Hc. exact Hc.
  - intros p. cbn zeta. rewrite exec_updateStatus. fields.
    destruct p as [[t|] ? ? ?]; repeat split; reflexivity.
  - intros e. apply Carries_step. exact Hc.
Qed.

Lemma status_holds_payload_of_tag_witness :
  is_Some (UpdateStatus.progress (status downloadInProgress)) /\
  UpdateStatus.info (status (exec (updateStatus (partial Checking)) downloadInProgress))
  = UpdateStatus.info (status downloadInProgress).
Proof.
  assert (Hreach : Reachable downloadInProgress) by (eexists _, _; reflexivity).
  pose proof (status_holds_payload_of_tag downloadInProgress Hreach)
    as (_ & Hprogress & _ & Hmerge & _).
  split; [apply Hprogress; reflexivity|].
  apply (Hmerge (partial Checking)).
Defined.

(** ** The cancellation flag *)

Lemma countdown_installs (h : nat) (k : nat) :
  forall (n : nat) (w : World),
    Running h (Z.of_nat n) w -> (1 <= n)%nat ->
    count isInstall (output (run (firings h k)) w) = (if (n <=? k)%nat then 1 else 0)%nat.
Proof.
  induction k as [|k IH]; intros n w Hrun Hn.
  - destruct n; [lia | reflexivity].
  - unfold firings in *. cbn [repeat]. rewrite output_run_cons, count_app.
    destruct (Nat.eq_dec n 1%nat) as [->|Hne].
    + destruct (tick_expires h _ w Hrun ltac:(lia)) as (Ho & Hgone & _).
      destruct (firings_gone h k _ Hgone) as [_ Hsilent].
      unfold firings in Hsilent. rewrite Hsilent, Ho.
      rewrite !count_app, count_deliveredTo by reflexivity.
      destruct (squirrelPending w); reflexivity.
    + destruct (tick_continues h _ w Hrun ltac:(lia)) as (Hrun' & Ho & _).
      replace (Z.of_nat n - 1) with (Z.of_nat (n - 1)) in Hrun' by lia.
      rewrite (IH (n - 1)%nat _ Hrun' ltac:(lia)), Ho, count_deliveredTo by reflexivity.
      destruct n as [|n]; [lia|]. replace (S n - 1)%nat with n by lia. reflexivity.
Qed.

Lemma cancelled_callAll (ls : list Listener) (w : World) :
  autoInstallCancelled (exec (callAll ls) w) = autoInstallCancelled w.
Proof.
  revert w. induction ls as [|l ls IH]; intros w; [reflexivity|].
  rewrite exec_callAll_cons, IH. destruct l; crunch; congruence.
Qed.

Lemma onReady_runs (id : nat) (w : World) :
  autoInstallCancelled w = false ->
  Running (nextHandle w) 5 (exec (callListener (OnReady id)) w).
Proof.
  intros Hc. cbn [callListener]. autorewrite with upd. fields. rewrite Hc.
  cbn zeta. autorewrite with upd. fields.
  unfold Running. fields. split; [lia|]. split; [|split; reflexivity].
  eexists. apply lookup_insert_eq.
Qed.

(** C10: the cancellation flag does not outlive its cycle.  Entering the
    staging wait resets it, and [startAutoInstallCountdown] runs the same
    whatever its value.  So after a cancellation, in any world with
    auto-download on, the next downloaded event gets its countdown: on macOS
    with Squirrel pending the flag is clear again and both the native signal
    and the fallback timeout start the countdown; otherwise the countdown
    starts with the event; and a countdown that runs installs at its fifth
    tick. *)
Theorem cancellation_is_per_cycle (w : World) (event : UpdateInfo) :
  autoDownload w = true ->
  let w1 := exec (run [IpcCancelAutoInstall; UpdateDownloaded event]) w in
  (forall w' : World, autoInstallCancelled (exec waitForSquirrelThenAutoInstall w') = false) /\
  (forall (w' : World) (b : bool),
     exec startAutoInstallCountdown (set_autoInstallCancelled b w')
     = set_autoInstallCancelled b (exec startAutoInstallCountdown w') /\
     output startAutoInstallCountdown (set_autoInstallCancelled b w')
     = output startAutoInstallCountdown w') /\
  (squirrelPending w = true ->
     autoInstallCancelled w1 = false /\
     (exists h : nat, Running h 5 (exec (step NativeUpdateDownloaded) w1)) /\
     (exists h : nat, Running h 5 (exec (step (TimerFires (S (nextHandle w)))) w1))) /\
  (squirrelPending w = false -> Running (nextHandle w) 5 w1) /\
  (forall (w2 : World) (h : nat),
     Running h 5 w2 -> count isInstall (output (run (firings h 5)) w2) = 1%nat).
Proof.
  intros Ha w1.
  split; [intros w'; rewrite exec_waitForSquirrelThenAutoInstall; reflexivity|].
  split.
  { intros w' b. rewrite !exec_startAutoInstallCountdown, !output_startAutoInstallCountdown.
    split; reflexivity. }
  assert (Hw1 : w1 = exec (step (UpdateDownloaded event)) (exec cancelAutoInstall w)).
  { unfold w1. rewrite !exec_run_cons. reflexivity. }
  split; [|split].
  - intros Hp. unfold squirrelPending, isDarwin in Hp.
    assert (Hw1' : w1 = exec waitForSquirrelThenAutoInstall
                     (set_status (UpdateStatus.spread (status w) (withInfo Downloaded event))
                        (exec cancelAutoInstall w))).
    { rewrite Hw1. cbn [step]. unfold onUpdateDownloaded. autorewrite with upd. fields.
      unfold isDarwin. fields. rewrite Ha, Hp. autorewrite with upd. reflexivity. }
    rewrite exec_waitForSquirrelThenAutoInstall, exec_cancelAutoInstall in Hw1'.
    fields. split; [rewrite Hw1'; reflexivity|]. split.
    + eexists. cbn [step]. unfold emitNativeUpdateDownloaded. autorewrite with upd.
      rewrite Hw1' at 1. fields. rewrite exec_callAll_app.
      cbn [callAll]. autorewrite with upd.
      apply onReady_runs. rewrite cancelled_callAll, Hw1'. reflexivity.
    + exists (S (S (nextHandle w))). cbn [step]. rewrite exec_fireTimer.
      replace (timers w1 !! S (nextHandle w))
        with (Some (fallbackTimer (now w + SQUIRREL_STAGING_TIMEOUT_MS) (nextHandle w)))
        by (rewrite Hw1'; fields; symmetry; apply lookup_insert_eq).
      unfold fallbackTimer, dequeued. fields. autorewrite with upd.
      rewrite Hw1'. fields. unfold fallbackEntered. autorewrite with upd. fields.
      unfold Running. fields. split; [lia|]. split; [|split; reflexivity].
      eexists. apply lookup_insert_eq.
  - intros Hp. unfold squirrelPending, isDarwin in Hp.
    rewrite Hw1. cbn [step]. unfold onUpdateDownloaded. autorewrite with upd. fields.
    unfold isDarwin. fields. rewrite Ha, Hp. autorewrite with upd. fields.
    unfold Running. fields. split; [lia|]. split; [|split; reflexivity].
    eexists. apply lookup_insert_eq.
  - intros w2 h Hrun. apply (countdown_installs h 5 5 w2 Hrun). lia.
Qed.

Lemma cancellation_is_per_cycle_witness :
  let w1 := exec (run [IpcCancelAutoInstall; UpdateDownloaded release]) macReady in
  let linux := exec (step (IpcSetAutoDownload true)) (initial "linux") in
  (autoInstallCancelled w1 = false /\
   (exists h : nat, Running h 5 (exec (step NativeUpdateDownloaded) w1)) /\
   (exists h : nat, Running h 5 (exec (step (TimerFires 1)) w1))) /\
  Running 0 5 (exec (run [IpcCancelAutoInstall; UpdateDownloaded release]) linux).
Proof.
  intros w1 linux.
  pose proof (cancellation_is_per_cycle macReady release eq_refl) as (_ & _ & Hmac & _).
  pose proof (cancellation_is_per_cycle linux release eq_refl) as (_ & _ & _ & Hlinux & _).
  split; [apply Hmac; reflexivity | apply Hlinux; reflexivity].
Defined.

(** * Further properties of the updater *)

Import Observations.

(** ** What reaches the renderer *)

Lemma count_Forall_false (p : Action -> bool) (o : list Action) :
  Forall (fun a => p a = false) o -> count p o = 0%nat.
Proof.
  induction 1 as [|a o Ha _ IH]; [reflexivity|].
  rewrite count_cons, Ha, IH. reflexivity.
Qed.

Lemma deliveredTo_windowless (w : World) (a : Action) :
  windowless w -> deliveredTo (mainWindow w) a = [].
Proof.
  unfold windowless. destruct (mainWindow w) as [[d]|]; cbn; [|reflexivity].
  intros ->. reflexivity.
Qed.

Ltac unsent :=
  repeat first [ apply List.Forall_nil
               | apply List.Forall_cons; [reflexivity|]
               | apply Forall_app; split
               | apply Forall_cleared; intros; reflexivity
               | rewrite deliveredTo_windowless by assumption ].

Lemma windowless_callAll (ls : list Listener) (w : World) :
  windowless w ->
  windowless (exec (callAll ls) w) /\
  Forall (fun a => isSend a = false) (output (callAll ls) w).
Proof.
  revert w. induction ls as [|l ls IH]; intros w Hw; [split; [exact Hw | constructor]|].
  rewrite exec_callAll_cons, output_callAll_cons.
  assert (H1 : windowless (exec (callListener l) w) /\
               Forall (fun a => isSend a = false) (output (callListener l) w)).
  { destruct l; crunch; (split; [exact Hw | unsent]). }
  destruct H1 as [H1 H2]. destruct (IH _ H1) as [H3 H4].
  split; [exact H3 | apply Forall_app; split; assumption].
Qed.

Lemma windowless_step (e : Event) (w : World) :
  attachesWindow e = false -> windowless w ->
  windowless (exec (step e) w) /\ Forall (fun a => isSend a = false) (output (step e) w).
Proof.
  intros He Hw. destruct e; try discriminate He;
    try solve [crunch; (split; [exact Hw | unsent])].
  - cbn [step]. unfold emitNativeUpdateDownloaded. autorewrite with upd.
    apply windowless_callAll, Hw.
  - crunch; (split; [|unsent]); [reflexivity | exact Hw].
Qed.

(** X1: Nothing is sent to a window that is missing or destroyed: from a world
    without a live window, as long as no window is attached, no run sends
    anything on any channel. *)
Theorem nothing_sent_without_window (w : World) (es : list Event) :
  windowless w ->
  forallb (fun e => negb (attachesWindow e)) es = true ->
  count isSend (output (run es) w) = 0%nat.
Proof.
  intros Hw Hes. apply count_Forall_false.
  apply (run_invariant windowless (fun a => isSend a = false)
           (fun e => negb (attachesWindow e))); auto.
  intros e w' He Hw'. apply windowless_step; [|exact Hw']. apply negb_true_iff, He.
Qed.

Lemma nothing_sent_without_window_witness :
  count isSend
    (output (run [IpcSetAutoDownload true; UpdateDownloaded release;
                  TimerFires 0; IpcCancelAutoInstall]) (initial "linux")) = 0%nat.
Proof.
  apply (nothing_sent_without_window (initial "linux")); [exact I | reflexivity].
Defined.

Lemma statusesSent_app (a b : list Action) :
  statusesSent (a ++ b) = statusesSent a ++ statusesSent b.
Proof.
  induction a as [|x a IH]; [reflexivity|].
  destruct x as [ch [s|c]| | | | | | | | |]; cbn [statusesSent app]; rewrite IH; reflexivity.
Qed.

Lemma last_default_irrelevant {A : Type} (l : list A) (d d' : A) :
  l <> [] -> List.last l d = List.last l d'.
Proof.
  induction l as [|x l IH]; [congruence|]. intros _.
  destruct l as [|y l]; [reflexivity|].
  change (List.last (y :: l) d = List.last (y :: l) d'). apply IH. discriminate.
Qed.

Lemma last_app_default {A : Type} (a b : list A) (d : A) :
  List.last (a ++ b) d = List.last b (List.last a d).
Proof.
  induction a as [|x a IH]; [reflexivity|].
  destruct a as [|y a].
  - destruct b as [|z b]; [reflexivity|].
    change (List.last (z :: b) d = List.last (z :: b) x).
    apply last_default_irrelevant. discriminate.
  - change (List.last ((y :: a) ++ b) d = List.last b (List.last (y :: a) d)).
    exact IH.
Qed.

Lemma synced_callAll (ls : list Listener) (w : World) :
  mainWindow (exec (callAll ls) w) = mainWindow w /\
  status (exec (callAll ls) w) = status w /\
  statusesSent (output (callAll ls) w) = [].
Proof.
  revert w. induction ls as [|l ls IH]; intros w; [repeat split; reflexivity|].
  rewrite exec_callAll_cons, output_callAll_cons, statusesSent_app.
  destruct (IH (exec (callListener l) w)) as (-> & -> & ->).
  destruct l; crunch; unfold cleared, deliveredTo; repeat case_match;
    repeat split; reflexivity.
Qed.

Ltac synced Halive :=
  unfold rendererAlive in *; fields; split; [assumption|];
  unfold cleared, deliveredTo; rewrite ?Halive; cbn [isDestroyed];
  repeat case_match; reflexivity.

Lemma synced_step (e : Event) (w : World) :
  windowEvent e = false -> rendererAlive w ->
  rendererAlive (exec (step e) w) /\
  status (exec (step e) w) = List.last (statusesSent (output (step e) w)) (status w).
Proof.
  intros He Hw. destruct e; try discriminate He;
    try solve [crunch; synced Hw].
  - cbn [step]. unfold emitNativeUpdateDownloaded. autorewrite with upd.
    destruct (synced_callAll (listeners w) w) as (Hm & -> & ->).
    unfold rendererAlive in *. rewrite Hm. split; [exact Hw | reflexivity].
Qed.

(** X2: With a live window that stays, the renderer is never behind: after any
    run, [getStatus()] answers the last status sent on
    ['update:status-changed'] during the run, or the status the run began
    with if none was sent. *)
Theorem renderer_sees_current_status (w : World) (es : list Event) :
  rendererAlive w ->
  forallb (fun e => negb (windowEvent e)) es = true ->
  result Ipc.getStatus (exec (run es) w)
  = List.last (statusesSent (output (run es) w)) (status w).
Proof.
  unfold Ipc.getStatus. autorewrite with upd.
  revert w. induction es as [|e es IH]; intros w Hw Hes; [reflexivity|].
  cbn [forallb] in Hes. apply andb_prop in Hes as [He Hes].
  apply negb_true_iff in He.
  destruct (synced_step e w He Hw) as [Hw1 Hs].
  rewrite exec_run_cons, output_run_cons, statusesSent_app, last_app_default, <- Hs.
  apply IH; assumption.
Qed.

Lemma renderer_sees_current_status_witness :
  result Ipc.getStatus
    (exec (run [CheckingForUpdate; UpdateAvailable release; IpcCancelAutoInstall]) macReady)
  = UpdateStatus.Build Available (Some release) None None.
Proof.
  rewrite (renderer_sees_current_status macReady
             [CheckingForUpdate; UpdateAvailable release; IpcCancelAutoInstall]
             eq_refl eq_refl).
  reflexivity.
Defined.

(** ** The safety timeout of [quitAndInstall] *)

(** X3: [quitAndInstall] asks electron-updater to install.  On macOS with
    Squirrel still staging it also sets one timeout of six minutes whose
    firing calls [app.quit()], once; with Squirrel ready, or off macOS, it
    sets no timer and leaves the world as it was. *)
Theorem safety_timeout_guards_install (w : World) :
  let h := nextHandle w in
  let w1 := exec (step IpcInstall) w in
  (squirrelPending w = true ->
   output (step IpcInstall) w = [QuitAndInstall; SetTimeout h QUIT_SAFETY_TIMEOUT_MS] /\
   timers w1 !! h = Some (safetyTimer (now w + 6 * 60000)) /\
   output (step (TimerFires h)) w1 = [AppQuit] /\
   forall later : list Event,
     output (step (TimerFires h)) (exec (run later) (exec (step (TimerFires h)) w1)) = []) /\
  (squirrelPending w = false ->
   output (step IpcInstall) w = [QuitAndInstall] /\ w1 = w).
Proof.
  cbn zeta. cbn [step]. rewrite exec_quitAndInstall, output_quitAndInstall. split.
  - intros ->. fields.
    assert (Ht : <[nextHandle w := {| due := now w + QUIT_SAFETY_TIMEOUT_MS;
                                      period := None; callback := QuitSafety |}]>
                   (timers w) !! nextHandle w = Some (safetyTimer (now w + 6 * 60000)))
      by apply lookup_insert_eq.
    split; [reflexivity|]. split; [exact Ht|].
    rewrite output_fireTimer, exec_fireTimer. fields. rewrite Ht.
    unfold safetyTimer, dequeued, quitSafety. fields. autorewrite with upd. fields.
    split; [reflexivity|].
    intros later. apply Gone_never_fires.
    split; unfold quitSafety; autorewrite with upd; fields; [lia | apply lookup_delete_eq].
  - intros ->. split; reflexivity.
Qed.

Lemma safety_timeout_guards_install_witness :
  output (step (TimerFires 0)) (exec (step IpcInstall) macReady) = [AppQuit] /\
  output (step IpcInstall) (exec (step NativeUpdateDownloaded) macReady) = [QuitAndInstall].
Proof.
  split.
  - apply (safety_timeout_guards_install macReady). reflexivity.
  - apply (safety_timeout_guards_install (exec (step NativeUpdateDownloaded) macReady)).
    reflexivity.
Defined.

Ltac fallback_fresh :=
  unfold FallbackFresh in *; fields; intros ? ?;
  try discriminate; simplify_eq; try lia;
  try match goal with
      | Hw : forall h, squirrelFallbackTimer ?w = Some h -> _,
        H : squirrelFallbackTimer ?w = Some _ |- _ => pose proof (Hw _ H); lia
      end.

Lemma FallbackFresh_callAll (ls : list Listener) (w : World) :
  FallbackFresh w -> FallbackFresh (exec (callAll ls) w).
Proof.
  revert w. induction ls as [|l ls IH]; intros w Hw; [exact Hw|].
  rewrite exec_callAll_cons. apply IH.
  destruct l; crunch; fallback_fresh.
Qed.

Lemma FallbackFresh_step (e : Event) (w : World) :
  FallbackFresh w -> FallbackFresh (exec (step e) w).
Proof.
  intros Hw. destruct e; try solve [crunch; fallback_fresh].
  cbn [step]. unfold emitNativeUpdateDownloaded. autorewrite with upd.
  apply FallbackFresh_callAll, Hw.
Qed.

Lemma FallbackFresh_reachable (w : World) : Reachable w -> FallbackFresh w.
Proof.
  intros (pf & es & ->).
  apply (run_invariant FallbackFresh (fun _ => True) (fun _ => true)).
  - intros e w' _ Hw'. split; [apply FallbackFresh_step, Hw' | apply Forall_forall; auto].
  - clear. induction es; auto.
  - intros h Hh. discriminate.
Qed.

Ltac safety_pending :=
  unfold SafetyPending, withoutTimer in *; fields;
  repeat match goal with
         | H : _ /\ _ |- _ => destruct H
         end;
  repeat match goal with
         | |- context [match ?x with _ => _ end] => destruct x eqn:?
         end;
  repeat split; try assumption; try lia; try congruence;
  repeat first [ rewrite lookup_insert_ne by (first [lia | congruence])
               | rewrite lookup_delete_ne by (first [lia | congruence]) ];
  try assumption; try (intros ?; simplify_eq; lia).

Lemma SafetyPending_callAll (h : nat) (d : Z) (ls : list Listener) (w : World) :
  SafetyPending h d w -> SafetyPending h d (exec (callAll ls) w).
Proof.
  revert w. induction ls as [|l ls IH]; intros w Hw; [exact Hw|].
  rewrite exec_callAll_cons. apply IH.
  destruct l; crunch; safety_pending.
Qed.

Lemma SafetyPending_step (h : nat) (d : Z) (e : Event) (w : World) :
  isFiring h e = false -> SafetyPending h d w -> SafetyPending h d (exec (step e) w).
Proof.
  intros He Hw. destruct e; try solve [crunch; safety_pending].
  - cbn [step]. unfold emitNativeUpdateDownloaded. autorewrite with upd.
    apply SafetyPending_callAll, Hw.
  - cbn [isFiring] in He. apply Nat.eqb_neq in He. crunch; safety_pending.
Qed.

(** X4: Once an install was asked for with Squirrel still staging, the forced
    quit cannot be called off: whatever happens before the safety timeout
    fires (a cancellation, the native signal, more downloads or installs),
    the timeout is still pending, and when it fires it calls [app.quit()]. *)
Theorem forced_quit_cannot_be_called_off (w : World) (later : list Event) :
  Reachable w -> squirrelPending w = true ->
  forallb (fun e => negb (isFiring (nextHandle w) e)) later = true ->
  let h := nextHandle w in
  let w2 := exec (run (IpcInstall :: later)) w in
  timers w2 !! h = Some (safetyTimer (now w + QUIT_SAFETY_TIMEOUT_MS)) /\
  output (step (TimerFires h)) w2 = [AppQuit].
Proof.
  intros Hreach Hp Hlater h w2.
  destruct (Reachable_invariant w Hreach) as [_ Hfresh].
  pose proof (FallbackFresh_reachable w Hreach) as Hfresh'.
  assert (H1 : SafetyPending h (now w + QUIT_SAFETY_TIMEOUT_MS) (exec (step IpcInstall) w)).
  { cbn [step]. rewrite exec_quitAndInstall, Hp. unfold SafetyPending. fields.
    split; [apply lookup_insert_eq|]. split; [lia|].
    split; intros Heq; [apply Hfresh in Heq | apply Hfresh' in Heq]; unfold h in Heq; lia. }
  assert (H2 : SafetyPending h (now w + QUIT_SAFETY_TIMEOUT_MS) w2).
  { unfold w2. rewrite exec_run_cons.
    apply (run_invariant (SafetyPending h (now w + QUIT_SAFETY_TIMEOUT_MS)) (fun _ => True)
             (fun e => negb (isFiring h e))); auto.
    intros e w' He Hw'. split; [|apply Forall_forall; auto].
    apply SafetyPending_step; [apply negb_true_iff, He | exact Hw']. }
  destruct H2 as (Ht & _). split; [exact Ht|].
  cbn [step]. rewrite output_fireTimer, Ht. reflexivity.
Qed.

Lemma forced_quit_cannot_be_called_off_witness :
  output (step (TimerFires 0))
    (exec (run [IpcInstall; IpcCancelAutoInstall; NativeUpdateDownloaded;
                UpdateDownloaded release; IpcInstall]) macReady) = [AppQuit].
Proof.
  assert (Hreach : Reachable macReady) by (eexists _, _; reflexivity).
  apply (forced_quit_cannot_be_called_off macReady
           [IpcCancelAutoInstall; NativeUpdateDownloaded; UpdateDownloaded release; IpcInstall]
           Hreach eq_refl eq_refl).
Defined.

(** ** The IPC handlers *)

(** X5: ['update:check'] never rejects: whatever the external check does, the
    handler answers, with the status of that moment, and changes the world
    as [checkForUpdates] does.  It answers [success: true] when the check
    gave a result or none, and then the status is neither [checking] nor
    [idle].  It answers [success: false] when the check raised: for a thrown
    value with that value's [String(error)] and the status [error]; for
    [null] and [undefined] with the text of the [TypeError] that
    [checkForUpdates] ran into, and with the status the check found, which
    nothing has changed. *)
Theorem check_handler_always_replies (w : World) (outcome : CheckOutcome) :
  let r := result (Ipc.handleCheck outcome) w in
  let w' := exec (Ipc.handleCheck outcome) w in
  Reply.status r = Some (status w') /\
  w' = exec (checkForUpdates outcome) w /\
  output (Ipc.handleCheck outcome) w = output (checkForUpdates outcome) w /\
  match outcome with
  | Rejects ThrownNull =>
      Reply.success r = false /\ w' = w /\
      Reply.error r
      = Some "TypeError: Cannot read properties of null (reading 'message')"
  | Rejects ThrownUndefined =>
      Reply.success r = false /\ w' = w /\
      Reply.error r
      = Some "TypeError: Cannot read properties of undefined (reading 'message')"
  | Rejects (ThrownValue v) =>
      Reply.success r = false /\ Reply.error r = Some (asString v) /\
      tagOf w' = Error /\
      UpdateStatus.error (status w')
      = Some match message v with
             | Some msg => if String.eqb msg "" then asString v else msg
             | None => asString v
             end
  | ResolvesNull =>
      Reply.success r = true /\ Reply.error r = None /\
      tagOf w' = Error /\
      UpdateStatus.error (status w')
      = Some "Update check skipped (dev mode – app is not packaged)"
  | Resolves _ =>
      Reply.success r = true /\ Reply.error r = None /\ settled (tagOf w') = true
  end.
Proof.
  cbn zeta. unfold Ipc.handleCheck, Ipc.getStatus, tagOf.
  destruct outcome as [|updateInfo|[| |v]].
  - unfold checkForUpdates. autorewrite with upd. fields. repeat split; reflexivity.
  - unfold checkForUpdates. autorewrite with upd. fields.
    destruct (UpdateStatus.status (status w)) eqn:Htag; cbn [UpdateStatus.Tag_eqb orb];
      autorewrite with upd; fields; rewrite ?Htag; repeat split; reflexivity.
  - unfold checkForUpdates. cbn [errorText readMessage]. autorewrite with upd.
    repeat split; reflexivity.
  - unfold checkForUpdates. cbn [errorText readMessage]. autorewrite with upd.
    repeat split; reflexivity.
  - unfold checkForUpdates. rewrite errorText_value. autorewrite with upd. fields.
    repeat split; reflexivity.
Qed.

(** ** The feed the constructor configures *)

Section FeedFacts.

Import ChannelResolver.

Lemma allAlpha_takeAlpha (s : string) : allAlpha (takeAlpha s) = true.
Proof.
  induction s as [|c s IH]; [reflexivity|]. cbn [takeAlpha].
  destruct (isAlpha c) eqn:Hc; [|reflexivity]. cbn [allAlpha]. rewrite Hc, IH. reflexivity.
Qed.

Lemma matchChannel_letters (v tag : string) :
  matchChannel v = Some tag -> allAlpha tag = true /\ tag <> "".
Proof.
  induction v as [|c v IH]; cbn [matchChannel]; [discriminate|].
  destruct (isHyphen c); [|exact IH].
  destruct (takeAlpha v) as [|a t] eqn:Ht; [exact IH|].
  intros [= <-]. split; [|discriminate].
  rewrite <- Ht. apply allAlpha_takeAlpha.
Qed.

(** X7: Whatever [app.getVersion()] returns, the channel the constructor sets is
    a non-empty run of ASCII letters, and the feed URL is the CDN base, a
    slash and that channel: nothing of the version but letters reaches the
    URL.  [setChannel] later changes the channel and leaves the feed URL. *)
Theorem feed_channel_is_letters (version : string) :
  let cfg := Feed.configure version in
  Feed.channel cfg = detectChannel version /\
  allAlpha (Feed.channel cfg) = true /\
  Feed.channel cfg <> "" /\
  Feed.url (Feed.feed cfg) = "https://oss.intelli-spectrum.com/" +:+ Feed.channel cfg /\
  Feed.autoDownload cfg = false /\
  forall c : string,
    Feed.channel (Feed.setChannel c cfg) = c /\
    Feed.url (Feed.feed (Feed.setChannel c cfg)) = Feed.url (Feed.feed cfg).
Proof.
  cbn zeta. unfold Feed.configure. cbn [Feed.channel Feed.feed Feed.url Feed.autoDownload].
  assert (H : allAlpha (detectChannel version) = true /\ detectChannel version <> "").
  { unfold detectChannel. destruct (matchChannel version) as [tag|] eqn:Hm.
    - apply (matchChannel_letters version tag Hm).
    - split; [reflexivity | discriminate]. }
  destruct H as [H1 H2]. repeat split; try assumption; reflexivity.
Qed.

Lemma takeAlpha_app_stop (r s : string) :
  startsAlpha s = false -> takeAlpha (r +:+ s) = takeAlpha r.
Proof.
  intros Hs. induction r as [|c r IH].
  - apply takeAlpha_not_alpha, Hs.
  - change (takeAlpha (String c (r +:+ s)) = takeAlpha (String c r)).
    cbn [takeAlpha]. destruct (isAlpha c); [rewrite IH|]; reflexivity.
Qed.

Lemma append_assoc (a b c : string) : (a +:+ b) +:+ c = a +:+ (b +:+ c).
Proof.
  induction a as [|x a IH]; [reflexivity|].
  change (String x ((a +:+ b) +:+ c) = String x (a +:+ (b +:+ c))). rewrite IH. reflexivity.
Qed.

(** X8: The channel of a labelled version is decided by its first label: what
    is appended after the version, as long as it does not begin with a
    letter (a new prerelease number, build metadata), does not change it. *)
Theorem detectChannel_ignores_suffix (v s : string) :
  hasLabel v = true -> startsAlpha s = false ->
  detectChannel (v +:+ s) = detectChannel v.
Proof.
  intros Hv Hs.
  destruct (matchChannel_first_label v Hv) as (pre & r & -> & Hpre & Hr & Hm).
  unfold detectChannel. rewrite Hm.
  rewrite append_assoc.
  change (("-" +:+ r) +:+ s) with ("-" +:+ (r +:+ s)).
  rewrite matchChannel_skip; [|assumption|reflexivity].
  change ("-" +:+ (r +:+ s)) with (String "-" (r +:+ s)).
  rewrite matchChannel_at_label.
  - apply takeAlpha_app_stop, Hs.
  - rewrite startsAlpha_app, Hr. reflexivity.
Qed.

Lemma detectChannel_ignores_suffix_witness :
  detectChannel ("0.1.8-alpha" +:+ ".12+build-7") = detectChannel "0.1.8-alpha".
Proof.
  apply detectChannel_ignores_suffix; reflexivity.
Defined.

End FeedFacts.

(** ** Auto-download off *)

Ltac reports :=
  repeat first [ apply List.Forall_nil
               | apply List.Forall_cons; [reflexivity|]
               | apply Forall_app; split
               | apply Forall_deliveredTo; reflexivity ].

Lemma Dormant_step (e : Event) (w : World) :
  userInstalls e = false -> Dormant w ->
  Dormant (exec (step e) w) /\ Forall (fun a => onlyReports a = true) (output (step e) w).
Proof.
  intros He (Ha & Ht & Hl & Hi & Hf).
  destruct e; try discriminate He.
  all: try solve [crunch; try congruence; (split; [repeat split; assumption | reports])].
  - cbn [step]. unfold emitNativeUpdateDownloaded. autorewrite with upd.
    destruct (callAll_noOnReady (listeners w) w Hl) as [-> ->].
    split; [repeat split; assumption | constructor].
  - cbn [step]. rewrite exec_fireTimer, output_fireTimer, Ht, lookup_empty.
    split; [repeat split; assumption | constructor].
  - cbn [step]. rewrite exec_cancelAutoInstall, output_cancelAutoInstall, Hi, Hf.
    split; [repeat split; assumption | reports].
  - destruct enable; [discriminate He|]. crunch. split; [repeat split; assumption | reports].
Qed.

Lemma onlyReports_quiet (o : list Action) :
  Forall (fun a => onlyReports a = true) o -> Forall (fun a => quietAction a = true) o.
Proof.
  apply List.Forall_impl. intros a Ha.
  destruct a as [ch [s|[n [c|]]]| | | | | | | | |]; try discriminate Ha; reflexivity.
Qed.

(** X9: With auto-download off, as the constructor leaves it, nothing installs
    by itself: until the user turns auto-download on or installs by hand, a
    run only reports (statuses, emitted events, the cancellation sentinel);
    it arms no timer, starts no countdown and never calls the install. *)
Theorem dormant_until_enabled (w : World) (es : list Event) :
  Dormant w ->
  forallb (fun e => negb (userInstalls e)) es = true ->
  Forall (fun a => onlyReports a = true) (output (run es) w) /\
  count isInstall (output (run es) w) = 0%nat /\
  count isCountdownStart (output (run es) w) = 0%nat /\
  ticks (output (run es) w) = [] /\
  timers (exec (run es) w) = ∅.
Proof.
  intros Hw Hes.
  destruct (run_invariant Dormant (fun a => onlyReports a = true)
              (fun e => negb (userInstalls e))) with (es := es) (w := w)
    as [Hd Ho]; auto.
  { intros e w' He Hw'. apply Dormant_step; [apply negb_true_iff, He | exact Hw']. }
  destruct (quiet_output_read _ (onlyReports_quiet _ Ho)) as (H1 & H2 & H3).
  repeat split; try assumption. apply Hd.
Qed.

Lemma dormant_until_enabled_witness :
  let es := [CheckingForUpdate; UpdateAvailable release; UpdateDownloaded release;
             NativeUpdateDownloaded; IpcCancelAutoInstall; TimerFires 0] in
  count isInstall (output (run es) (initial "darwin")) = 0%nat /\
  count isCountdownStart (output (run es) (initial "darwin")) = 0%nat.
Proof.
  intros es.
  assert (Hd : Dormant (initial "darwin")) by (repeat split).
  destruct (dormant_until_enabled (initial "darwin") es Hd eq_refl) as (_ & H1 & H2 & _).
  split; assumption.
Defined.

(** ** Squirrel, once ready *)

Lemma In_dropListener (id : nat) (ls : list Listener) :
  In MarkSquirrelReady ls -> In MarkSquirrelReady (dropListener id ls).
Proof.
  intros H. unfold dropListener. apply List.filter_In. split; [exact H | reflexivity].
Qed.

Ltac listening :=
  unfold Listening in *; fields; unfold isDarwin in *; fields;
  intros; try apply In_dropListener; try (apply in_or_app; left); auto.

Lemma Listening_callAll (ls : list Listener) (w : World) :
  Listening w -> Listening (exec (callAll ls) w).
Proof.
  revert w. induction ls as [|l ls IH]; intros w Hw; [exact Hw|].
  rewrite exec_callAll_cons. apply IH.
  destruct l; crunch; listening.
Qed.

Lemma Listening_step (e : Event) (w : World) :
  Listening w -> Listening (exec (step e) w).
Proof.
  intros Hw. destruct e; try solve [crunch; listening].
  cbn [step]. unfold emitNativeUpdateDownloaded. autorewrite with upd.
  apply Listening_callAll, Hw.
Qed.

Lemma Listening_reachable (w : World) : Reachable w -> Listening w.
Proof.
  intros (pf & es & ->).
  apply (run_invariant Listening (fun _ => True) (fun _ => true)).
  - intros e w' _ Hw'. split; [apply Listening_step, Hw' | apply Forall_forall; auto].
  - clear. induction es; auto.
  - unfold Listening, isDarwin, initial. cbn. intros ->. left. reflexivity.
Qed.

Lemma ready_callAll (ls : list Listener) (w : World) :
  nativeSquirrelReady w = true -> nativeSquirrelReady (exec (callAll ls) w) = true.
Proof.
  revert w. induction ls as [|l ls IH]; intros w Hw; [exact Hw|].
  rewrite exec_callAll_cons. apply IH. destruct l; crunch; auto.
Qed.

Lemma ready_step (e : Event) (w : World) :
  nativeSquirrelReady w = true -> nativeSquirrelReady (exec (step e) w) = true.
Proof.
  intros Hw. destruct e; try solve [crunch; auto].
  cbn [step]. unfold emitNativeUpdateDownloaded. autorewrite with upd.
  apply ready_callAll, Hw.
Qed.

Lemma ready_run (es : list Event) (w : World) :
  nativeSquirrelReady w = true -> nativeSquirrelReady (exec (run es) w) = true.
Proof.
  intros Hw.
  apply (run_invariant (fun w => nativeSquirrelReady w = true) (fun _ => True)
           (fun _ => true)); auto.
  - intros e w' _ Hw'. split; [apply ready_step, Hw' | apply Forall_forall; auto].
  - clear. induction es; auto.
Qed.

Lemma callAll_marks_ready (ls : list Listener) (w : World) :
  In MarkSquirrelReady ls -> nativeSquirrelReady (exec (callAll ls) w) = true.
Proof.
  revert w. induction ls as [|l ls IH]; intros w Hin; [destruct Hin|].
  rewrite exec_callAll_cons. destruct Hin as [->|Hin].
  - apply ready_callAll. reflexivity.
  - apply IH, Hin.
Qed.

(** X10: On macOS the native signal is remembered for the life of the process:
    after it, whatever happens, Squirrel counts as ready.  From then on an
    install sets no safety timeout, and a downloaded event (auto-download
    on) starts the countdown in the same step, registering no listener and
    arming no fallback. *)
Theorem squirrel_ready_is_remembered (w : World) (es : list Event) (event : UpdateInfo) :
  Reachable w -> isDarwin w = true ->
  let w' := exec (run (NativeUpdateDownloaded :: es)) w in
  nativeSquirrelReady w' = true /\
  output (step IpcInstall) w' = [QuitAndInstall] /\
  (autoDownload w' = true ->
   Running (nextHandle w') 5 (exec (step (UpdateDownloaded event)) w') /\
   count isCountdownStart (output (step (UpdateDownloaded event)) w') = 1%nat /\
   count isWaitAction (output (step (UpdateDownloaded event)) w') = 0%nat).
Proof.
  intros Hreach Hd w'.
  assert (Hready : nativeSquirrelReady w' = true).
  { unfold w'. rewrite exec_run_cons. apply ready_run.
    cbn [step]. unfold emitNativeUpdateDownloaded. autorewrite with upd.
    apply callAll_marks_ready, (Listening_reachable w Hreach), Hd. }
  split; [exact Hready|]. split.
  - cbn [step]. rewrite output_quitAndInstall. unfold squirrelPending.
    rewrite Hready, andb_false_r. reflexivity.
  - intros Ha. cbn [step]. unfold onUpdateDownloaded. autorewrite with upd. fields.
    unfold isDarwin. fields. rewrite Ha, Hready, andb_false_r.
    autorewrite with upd. fields.
    split; [|split].
    + unfold Running. fields. split; [lia|]. split; [|split; reflexivity].
      eexists. apply lookup_insert_eq.
    + rewrite !count_app, !count_deliveredTo, count_cleared by reflexivity. reflexivity.
    + rewrite !count_app, !count_deliveredTo, count_cleared by reflexivity. reflexivity.
Qed.

Lemma squirrel_ready_is_remembered_witness :
  let w' := exec (run [NativeUpdateDownloaded; IpcCancelAutoInstall]) macReady in
  nativeSquirrelReady w' = true /\
  count isWaitAction (output (step (UpdateDownloaded release)) w') = 0%nat.
Proof.
  intros w'.
  assert (Hreach : Reachable macReady) by (eexists _, _; reflexivity).
  destruct (squirrel_ready_is_remembered macReady [IpcCancelAutoInstall] release
              Hreach eq_refl) as (H1 & _ & H2).
  split; [exact H1 | apply H2; reflexivity].
Defined.

(** ** Off macOS *)

Ltac unstaged :=
  repeat first [ apply List.Forall_nil
               | apply List.Forall_cons; [reflexivity|]
               | apply Forall_app; split
               | apply Forall_deliveredTo; reflexivity
               | apply Forall_cleared; intros; reflexivity ].

Ltac off_mac :=
  unfold OffMac, isDarwin, withoutTimer; fields;
  repeat match goal with
         | |- context [match ?x with _ => _ end] => destruct x eqn:?
         end;
  repeat split; try assumption;
  intros ? ? ?; split_lookups; subst; fields; try reflexivity; eauto.

Lemma OffMac_step (e : Event) (w : World) :
  OffMac w ->
  OffMac (exec (step e) w) /\ Forall (fun a => isStagingAction a = false) (output (step e) w).
Proof.
  intros (Hd & Hf & Hl & Ht). unfold isDarwin in Hd.
  destruct e.
  all: try solve [crunch; try (rewrite Hd in *; discriminate);
                  try match goal with
                      | H : timers _ !! _ = Some ?t, Hc : callback ?t = _ |- _ =>
                          rewrite (Ht _ _ H) in Hc; discriminate
                      end;
                  (split; [off_mac | unstaged])].
  - cbn [step]. unfold emitNativeUpdateDownloaded. autorewrite with upd.
    destruct (callAll_noOnReady (listeners w) w Hl) as [-> ->].
    split; [repeat split; assumption | constructor].
  - cbn [step]. rewrite exec_cancelAutoInstall, output_cancelAutoInstall, Hf.
    split; [off_mac | unstaged].
Qed.

(** X11: Off macOS the updater never waits for Squirrel and never forces a quit:
    in no run does it register a native listener, set or clear a timeout, or
    call [app.quit()]; the only timer it ever arms is the interval of the
    countdown. *)
Theorem off_mac_never_waits (platform : string) (es : list Event) :
  String.eqb platform "darwin" = false ->
  count isStagingAction (output (run es) (initial platform)) = 0%nat /\
  OffMac (exec (run es) (initial platform)).
Proof.
  intros Hp.
  destruct (run_invariant OffMac (fun a => isStagingAction a = false) (fun _ => true))
    with (es := es) (w := initial platform) as [Hw Ho].
  - intros e w' _ Hw'. apply OffMac_step, Hw'.
  - clear. induction es; auto.
  - unfold OffMac, isDarwin, initial. cbn. rewrite Hp. repeat split.
    intros h t Hl. rewrite lookup_empty in Hl. discriminate.
  - split; [apply count_Forall_false, Ho | exact Hw].
Qed.

Lemma off_mac_never_waits_witness :
  count isStagingAction
    (output (run [IpcSetAutoDownload true; UpdateDownloaded release; UpdateDownloaded release;
                  NativeUpdateDownloaded; TimerFires 1; IpcInstall; IpcCancelAutoInstall])
       (initial "win32")) = 0%nat.
Proof.
  apply (off_mac_never_waits "win32"). reflexivity.
Defined.

(** ** The seconds of a countdown *)

Lemma tickInRange_tick (ch : string) (n : Z) :
  0 <= n <= 5 ->
  tickInRange (Send ch (CountdownPayload {| seconds := n; cancelled := None |})) = true.
Proof.
  intros [H1 H2]. cbn [tickInRange]. apply andb_true_intro.
  split; apply Z.leb_le; [exact H1 | exact H2].
Qed.

Ltac in_range :=
  repeat first [ apply List.Forall_nil
               | apply List.Forall_cons; [reflexivity|]
               | apply Forall_app; split
               | apply Forall_deliveredTo; first [reflexivity | apply tickInRange_tick; lia]
               | apply Forall_cleared; intros; reflexivity ].

(** What the invariant says of the interval that is firing. *)
Ltac firing_bound :=
  try match goal with
      | Hb : forall h, autoInstallTimer ?w = Some h -> _,
        Ho : TickOwned ?w,
        H : timers ?w !! _ = Some ?t, Hc : callback ?t = AutoInstallTick |- _ =>
          pose proof (Hb _ (Ho _ _ H Hc))
      end;
  repeat match goal with
         | H : (_ <=? _) = true |- _ => apply Z.leb_le in H
         | H : (_ <=? _) = false |- _ => apply Z.leb_gt in H
         end.

Ltac bounded :=
  unfold Bounded; split; [tick_owned|];
  fields; intros ? ?; try discriminate; unfold AUTO_INSTALL_DELAY_SECONDS in *;
  try lia;
  try match goal with
      | Hb : forall h, autoInstallTimer ?w = Some h -> _,
        H : autoInstallTimer ?w = Some _ |- _ => pose proof (Hb _ H); lia
      | Hb : forall h, Some ?n = Some h -> _ |- _ => pose proof (Hb _ eq_refl); lia
      end.

Lemma Bounded_callAll (ls : list Listener) (w : World) :
  Bounded w ->
  Bounded (exec (callAll ls) w) /\ Forall (fun a => tickInRange a = true) (output (callAll ls) w).
Proof.
  revert w. induction ls as [|l ls IH]; intros w Hw; [split; [exact Hw | constructor]|].
  rewrite exec_callAll_cons, output_callAll_cons.
  assert (H1 : Bounded (exec (callListener l) w) /\
               Forall (fun a => tickInRange a = true) (output (callListener l) w)).
  { destruct Hw as [Ho Hb]. destruct l; crunch; (split; [bounded | in_range]). }
  destruct H1 as [H1 H2]. destruct (IH _ H1) as [H3 H4].
  split; [exact H3 | apply Forall_app; split; assumption].
Qed.

Lemma Bounded_step (e : Event) (w : World) :
  Bounded w ->
  Bounded (exec (step e) w) /\ Forall (fun a => tickInRange a = true) (output (step e) w).
Proof.
  intros Hw. destruct e;
    try solve [destruct Hw as [Ho Hb]; crunch; firing_bound;
               unfold AUTO_INSTALL_DELAY_SECONDS in *; (split; [bounded | in_range])].
  - cbn [step]. unfold emitNativeUpdateDownloaded. autorewrite with upd.
    apply Bounded_callAll, Hw.
Qed.

Lemma ticks_in_range (o : list Action) :
  Forall (fun a => tickInRange a = true) o -> Forall (fun n => 0 <= n <= 5) (ticks o).
Proof.
  induction 1 as [|a o Ha _ IH]; [constructor|].
  destruct a as [ch [s|[n [c|]]]| | | | | | | | |]; cbn [ticks]; try exact IH.
  constructor; [|exact IH]. cbn [tickInRange] in Ha.
  apply andb_prop in Ha as [H1 H2]. apply Z.leb_le in H1, H2.
  unfold AUTO_INSTALL_DELAY_SECONDS in H2. lia.
Qed.

Lemma Bounded_reachable (w : World) : Reachable w -> Bounded w.
Proof.
  intros (pf & es & ->).
  apply (run_invariant Bounded (fun a => tickInRange a = true) (fun _ => true)).
  - intros e w' _ Hw'. apply Bounded_step, Hw'.
  - clear. induction es; auto.
  - split.
    + intros h t Hl. cbn in Hl. rewrite lookup_empty in Hl. discriminate.
    + intros h Hh. discriminate.
Qed.

(** X12: In every reachable world at most one interval of a countdown is
    pending, and while a countdown runs its remaining seconds are between 1
    and 5; so every tick any run publishes from there carries a number of
    seconds between 0 and 5 (the only negative number ever published is the
    [-1] of a cancellation). *)
Theorem one_countdown_within_bounds (w : World) (es : list Event) :
  Reachable w ->
  (forall (h1 h2 : nat) (t1 t2 : Timer),
     timers w !! h1 = Some t1 -> timers w !! h2 = Some t2 ->
     isTick t1 = true -> isTick t2 = true -> h1 = h2) /\
  (forall h : nat, autoInstallTimer w = Some h -> 1 <= autoInstallCountdown w <= 5) /\
  Forall (fun n => 0 <= n <= 5) (ticks (output (run es) w)).
Proof.
  intros Hreach. destruct (Bounded_reachable w Hreach) as [Ho Hb].
  split; [|split; [exact Hb|]].
  - intros h1 h2 t1 t2 H1 H2 Ht1 Ht2.
    assert (Hc : forall t, isTick t = true -> callback t = AutoInstallTick).
    { intros t. unfold isTick. destruct (callback t); try discriminate. reflexivity. }
    pose proof (Ho _ _ H1 (Hc _ Ht1)) as E1. pose proof (Ho _ _ H2 (Hc _ Ht2)) as E2.
    congruence.
  - apply ticks_in_range.
    apply (run_invariant Bounded (fun a => tickInRange a = true) (fun _ => true)).
    + intros e w' _ Hw'. apply Bounded_step, Hw'.
    + clear. induction es; auto.
    + split; assumption.
Qed.

Lemma one_countdown_within_bounds_witness :
  let w := exec (run [IpcSetMainWindow {| isDestroyed := false |}; IpcSetAutoDownload true;
                      UpdateDownloaded release; TimerFires 1; TimerFires 2])
                (initial "darwin") in
  (forall h : nat, autoInstallTimer w = Some h -> 1 <= autoInstallCountdown w <= 5) /\
  Forall (fun n => 0 <= n <= 5)
    (ticks (output (run [UpdateDownloaded release; TimerFires 2; TimerFires 2; TimerFires 2;
                         TimerFires 2; TimerFires 2; IpcCancelAutoInstall]) w)).
Proof.
  intros w.
  assert (Hreach : Reachable w) by (eexists _, _; reflexivity).
  destruct (one_countdown_within_bounds w
              [UpdateDownloaded release; TimerFires 2; TimerFires 2; TimerFires 2;
               TimerFires 2; TimerFires 2; IpcCancelAutoInstall] Hreach)
    as (_ & Hb & Ht).
  split; [exact Hb | exact Ht].
Defined.

(** ** Cancelling again, and events during a countdown *)

Lemma World_eq (a b : World) :
  mainWindow a = mainWindow b -> status a = status b ->
  autoInstallTimer a = autoInstallTimer b ->
  autoInstallCountdown a = autoInstallCountdown b ->
  nativeSquirrelReady a = nativeSquirrelReady b ->
  squirrelFallbackTimer a = squirrelFallbackTimer b ->
  autoInstallCancelled a = autoInstallCancelled b ->
  platform a = platform b -> autoDownload a = autoDownload b ->
  timers a = timers b -> listeners a = listeners b ->
  nextHandle a = nextHandle b -> now a = now b -> a = b.
Proof.
  destruct a, b. cbn [mainWindow status autoInstallTimer autoInstallCountdown
       nativeSquirrelReady squirrelFallbackTimer autoInstallCancelled
       platform autoDownload timers listeners nextHandle now].
  intros. subst. reflexivity.
Qed.

(** X13: [cancelAutoInstall] is idempotent on the world: a second cancellation
    changes nothing and only publishes the sentinel again; and when neither a
    countdown nor a staging wait is under way, a cancellation does no more
    than set the flag and publish the sentinel. *)
Theorem cancel_again_changes_nothing (w : World) :
  let w1 := exec (step IpcCancelAutoInstall) w in
  exec (step IpcCancelAutoInstall) w1 = w1 /\
  output (step IpcCancelAutoInstall) w1 = deliveredTo (mainWindow w) cancelSentinel /\
  (autoInstallTimer w = None -> squirrelFallbackTimer w = None ->
   w1 = set_autoInstallCancelled true w /\
   output (step IpcCancelAutoInstall) w = deliveredTo (mainWindow w) cancelSentinel).
Proof.
  cbn zeta. cbn [step].
  rewrite !exec_cancelAutoInstall, !output_cancelAutoInstall. fields.
  cbn [withoutTimer cleared app].
  split; [apply World_eq; reflexivity|]. split; [reflexivity|].
  intros Ha Hf. rewrite Ha, Hf. cbn [withoutTimer cleared app].
  split; [|reflexivity].
  apply World_eq; fields; auto.
Qed.

Lemma cancel_again_changes_nothing_witness :
  exec (step IpcCancelAutoInstall) macReady = set_autoInstallCancelled true macReady.
Proof.
  apply (cancel_again_changes_nothing macReady); reflexivity.
Defined.

Lemma Running_passive_step (h : nat) (c : Z) (e : Event) (w : World) :
  passive e = true -> Running h c w ->
  Running h c (exec (step e) w) /\ count isInstall (output (step e) w) = 0%nat.
Proof.
  intros He (Hlt & Ht & Ha & Hc).
  destruct e; try discriminate He; crunch;
    (split; [repeat split; assumption|]);
    rewrite ?count_app, ?count_deliveredTo by reflexivity; reflexivity.
Qed.

Lemma isFiring_eq (h : nat) (e : Event) : isFiring h e = true -> e = TimerFires h.
Proof.
  destruct e; try discriminate. cbn [isFiring]. intros H.
  apply Nat.eqb_eq in H. subst. reflexivity.
Qed.

Lemma passive_not_firing (h : nat) (e : Event) : passive e = true -> isFiring h e = false.
Proof. destruct e; try discriminate; reflexivity. Qed.

Lemma gone_no_install (h : nat) (es : list Event) (w : World) :
  Gone h w -> forallb (undisturbing h) es = true ->
  count isInstall (output (run es) w) = 0%nat.
Proof.
  revert w. induction es as [|e es IH]; intros w Hg Hes; [reflexivity|].
  cbn [forallb] in Hes. apply andb_prop in Hes as [He Hes].
  rewrite output_run_cons, count_app, (IH _ (Gone_step h e w Hg) Hes).
  unfold undisturbing in He. apply orb_prop in He as [He|He].
  - assert (H : count isInstall (output (step e) w) = 0%nat).
    { destruct e; try discriminate He; crunch;
        rewrite ?count_app, ?count_deliveredTo by reflexivity; reflexivity. }
    rewrite H. reflexivity.
  - apply isFiring_eq in He. subst e.
    destruct (Gone_never_fires h [] w Hg) as [_ Ho]. cbn [run] in Ho.
    change (exec skip w) with w in Ho. rewrite Ho. reflexivity.
Qed.

Lemma tick_expires_gone (h : nat) (c : Z) (w : World) :
  Running h c w -> c <= 1 -> Gone h (exec (step (TimerFires h)) w).
Proof.
  intros (Hf & [d Ht] & Ha & Hc) Hle. cbn [step].
  rewrite exec_fireTimer, Ht.
  unfold tickTimer, dequeued. fields. autorewrite with upd. cbn zeta. fields.
  subst c. destruct (autoInstallCountdown w - 1 <=? 0) eqn:Hle'; [|lia].
  autorewrite with upd. fields. rewrite Ha. unfold squirrelPending, isDarwin. fields.
  cbn [withoutTimer].
  destruct (String.eqb (platform w) "darwin" && negb (nativeSquirrelReady w));
    split; fields; try lia.
  - rewrite lookup_insert_ne by lia. apply lookup_delete_eq.
  - apply lookup_delete_eq.
Qed.

(** X14: A check, status events, passing time or window changes in the middle of
    a countdown neither delay nor repeat the install: among such events and
    the ticks of the interval, the install is called exactly once, at the
    tick that uses up the remaining seconds, and never if the ticks are
    fewer. *)
Theorem countdown_is_not_disturbed (h : nat) (es : list Event) :
  forall (n : nat) (w : World),
    Running h (Z.of_nat n) w -> (1 <= n)%nat ->
    forallb (undisturbing h) es = true ->
    count isInstall (output (run es) w)
    = (if (n <=? firingsIn h es)%nat then 1 else 0)%nat.
Proof.
  induction es as [|e es IH]; intros n w Hrun Hn Hes.
  - destruct n; [lia | reflexivity].
  - cbn [forallb] in Hes. apply andb_prop in Hes as [He Hes].
    rewrite output_run_cons, count_app. unfold undisturbing in He.
    destruct (passive e) eqn:Hp.
    + destruct (Running_passive_step h _ e w Hp Hrun) as [Hrun' Ho].
      rewrite Ho, (IH n _ Hrun' Hn Hes).
      unfold firingsIn. cbn [List.filter]. rewrite (passive_not_firing h e Hp). reflexivity.
    + cbn [orb] in He. pose proof (isFiring_eq h e He) as ->.
      unfold firingsIn. cbn [List.filter]. rewrite He. cbn [length].
      fold (firingsIn h es).
      destruct (Nat.eq_dec n 1%nat) as [->|Hne].
      * destruct (tick_expires h _ w Hrun ltac:(lia)) as (Ho & _).
        pose proof (tick_expires_gone h _ w Hrun ltac:(lia)) as Hg.
        rewrite (gone_no_install h es _ Hg Hes), Ho.
        rewrite !count_app, count_deliveredTo by reflexivity.
        destruct (squirrelPending w); reflexivity.
      * destruct (tick_continues h _ w Hrun ltac:(lia)) as (Hrun' & Ho & _).
        replace (Z.of_nat n - 1) with (Z.of_nat (n - 1)) in Hrun' by lia.
        rewrite (IH (n - 1)%nat _ Hrun' ltac:(lia) Hes), Ho, count_deliveredTo by reflexivity.
        destruct n as [|n]; [lia|]. replace (S n - 1)%nat with n by lia. reflexivity.
Qed.

Lemma countdown_is_not_disturbed_witness :
  let w := exec (run [IpcSetMainWindow {| isDestroyed := false |}; IpcSetAutoDownload true;
                      UpdateDownloaded release]) (initial "linux") in
  count isInstall
    (output (run [TimerFires 0; CheckingForUpdate; TimerFires 0; Elapse 10; TimerFires 0;
                  CheckSettles (Resolves None); TimerFires 0; WindowDestroyed;
                  TimerFires 0; TimerFires 0]) w) = 1%nat.
Proof.
  intros w.
  assert (Hrun : Running 0 (Z.of_nat 5) w).
  { split; [vm_compute; lia|]. split; [exists 1000; reflexivity|]. split; reflexivity. }
  exact (countdown_is_not_disturbed 0
           [TimerFires 0; CheckingForUpdate; TimerFires 0; Elapse 10; TimerFires 0;
            CheckSettles (Resolves None); TimerFires 0; WindowDestroyed;
            TimerFires 0; TimerFires 0] 5%nat w Hrun ltac:(lia) eq_refl).
Defined.

(** ** Superseding and calling off *)

(** X15: A downloaded event that finds a countdown running (auto-download on,
    no staging wait to enter) supersedes it: the old interval is cleared in
    that step and never fires again, and a fresh countdown of 5 seconds
    starts on a new interval, the only one started. *)
Theorem restart_supersedes_countdown (w : World) (h : nat) (c : Z) (event : UpdateInfo) :
  Running h c w -> autoDownload w = true -> squirrelPending w = false ->
  let w1 := exec (step (UpdateDownloaded event)) w in
  let o := output (step (UpdateDownloaded event)) w in
  In (ClearInterval h) o /\
  count isCountdownStart o = 1%nat /\
  ticks o = ticks (deliveredTo (mainWindow w) countdownStarted) /\
  Running (nextHandle w) 5 w1 /\
  forall later : list Event,
    exec (step (TimerFires h)) (exec (run later) w1) = exec (run later) w1 /\
    output (step (TimerFires h)) (exec (run later) w1) = [].
Proof.
  intros (Hlt & [d Ht] & Ha & Hc) Hauto Hp. cbn zeta. cbn [step].
  unfold onUpdateDownloaded. autorewrite with upd. fields.
  unfold squirrelPending in Hp. unfold isDarwin in *. fields. rewrite Hauto, Hp.
  autorewrite with upd. fields. rewrite Ha. cbn [cleared withoutTimer].
  split; [apply in_or_app; right; right; left; reflexivity|].
  split; [rewrite !count_app, !count_deliveredTo by reflexivity; reflexivity|].
  split.
  { rewrite !ticks_app. unfold countdownStarted.
    destruct (mainWindow w) as [[[]]|]; reflexivity. }
  split.
  - unfold Running. fields. split; [lia|]. split; [|split; reflexivity].
    eexists. apply lookup_insert_eq.
  - intros later. apply Gone_never_fires. split; fields; [lia|].
    rewrite lookup_insert_ne by lia. apply lookup_delete_eq.
Qed.

Lemma restart_supersedes_countdown_witness :
  let w := exec (run [IpcSetMainWindow {| isDestroyed := false |}; IpcSetAutoDownload true;
                      UpdateDownloaded release; TimerFires 0; TimerFires 0])
                (initial "linux") in
  In (ClearInterval 0) (output (step (UpdateDownloaded release)) w) /\
  Running 1 5 (exec (step (UpdateDownloaded release)) w).
Proof.
  intros w.
  assert (Hrun : Running 0 3 w).
  { split; [vm_compute; lia|].
    split; [exists 3000; vm_compute; reflexivity|]. split; vm_compute; reflexivity. }
  destruct (restart_supersedes_countdown w 0 3 release Hrun eq_refl eq_refl)
    as (H1 & _ & _ & H2 & _).
  split; [exact H1 | exact H2].
Defined.

(** X16: A cancellation during the staging wait calls the auto-install off: in a
    reachable world whose fallback timeout [F] is held, [cancelAutoInstall]
    clears it, it never fires, and until a new downloaded event (or an
    install by hand) nothing starts a countdown, ticks or installs, not even
    the native signal when it arrives at last. *)
Theorem cancel_calls_off_staging_wait (w : World) (F : nat) (later : list Event) :
  Reachable w -> squirrelFallbackTimer w = Some F ->
  forallb (fun e => negb (beginsCycle e)) later = true ->
  let w1 := exec (step IpcCancelAutoInstall) w in
  In (ClearTimeout F) (output (step IpcCancelAutoInstall) w) /\
  squirrelFallbackTimer w1 = None /\
  output (step (TimerFires F)) (exec (run later) w1) = [] /\
  count isCountdownStart (output (run (later ++ [NativeUpdateDownloaded])) w1) = 0%nat /\
  ticks (output (run (later ++ [NativeUpdateDownloaded])) w1) = [] /\
  count isInstall (output (run (later ++ [NativeUpdateDownloaded])) w1) = 0%nat.
Proof.
  intros Hreach HF Hlater. cbn zeta.
  destruct (Reachable_invariant w Hreach) as [Howned _].
  pose proof (FallbackFresh_reachable w Hreach F HF) as Hlt.
  cbn [step]. rewrite output_cancelAutoInstall, HF.
  split; [left; reflexivity|].
  split; [rewrite exec_cancelAutoInstall; reflexivity|].
  split.
  - apply (Gone_never_fires F later). rewrite exec_cancelAutoInstall, HF.
    split; fields; [exact Hlt|]. apply lookup_withoutTimer_None, lookup_delete_eq.
  - assert (Hq : Forall (fun a => quietAction a = true)
                   (output (run (later ++ [NativeUpdateDownloaded])) (exec cancelAutoInstall w))).
    { apply Quiet_run; [|apply Quiet_after_cancel, Howned].
      rewrite forallb_app, Hlater. reflexivity. }
    destruct (quiet_output_read _ Hq) as (H1 & H2 & H3). repeat split; assumption.
Qed.

Lemma cancel_calls_off_staging_wait_witness :
  let w := exec (run [IpcSetMainWindow {| isDestroyed := false |}; IpcSetAutoDownload true;
                      UpdateDownloaded release]) (initial "darwin") in
  let w1 := exec (step IpcCancelAutoInstall) w in
  output (step (TimerFires 1)) (exec (run [Elapse 1000]) w1) = [] /\
  count isCountdownStart (output (run ([Elapse 1000] ++ [NativeUpdateDownloaded])) w1) = 0%nat.
Proof.
  intros w w1.
  assert (Hreach : Reachable w) by (eexists _, _; reflexivity).
  assert (HF : squirrelFallbackTimer w = Some 1%nat) by (vm_compute; reflexivity).
  destruct (cancel_calls_off_staging_wait w 1 [Elapse 1000] Hreach HF eq_refl)
    as (_ & _ & H1 & H2 & _).
  split; [exact H1 | exact H2].
Defined.
